(** * PrescriptionOCR: the synthetic OCR noise injector

    A shallow embedding of the text-corruption utilities of the
    extract-text route handler ([introduceRealisticOCRErrors],
    [addOCRFormattingIssues] and the post-processing of the parsed model
    response in [POST]), followed by the properties the specification
    states about them.

    Modelling conventions.
    - A JavaScript string is the list of its UTF-16 code units ([N]).
    - A property bag ([ocrErrors]) is a [gmap] from property name to value,
      filled by one insertion per declared property, in source order.
    - [Math.random()] reads the next element of a stream of draws; the
      state threaded through the code is the number of draws consumed.
      A draw is the rational number the returned Number denotes, and the
      numeric literals of the source are the rationals they spell.
    - [String.prototype.replace] with a global regular expression and a
      replacer function is a left-to-right scan driven by a backtracking
      matcher for the regular-expression fragment the source uses. *)

From Stdlib Require Import NArith QArith String Ascii DecimalString.
From stdpp Require Import gmap list.

Open Scope N_scope.
Open Scope list_scope.

(** ** JavaScript strings *)

Module JS.

(** A string is the list of its UTF-16 code units; these are the code units
    of an ASCII literal. *)
Definition lit (s : string) : list N :=
  map N_of_ascii (list_ascii_of_string s).

Definition LF : N := 10.
Definition SPACE : N := 32.

(** The class [\w] of a regular expression without the [u] and [i]
    flags: [A-Za-z0-9_]. *)
Definition isWord (c : N) : bool :=
  ((48 <=? c) && (c <=? 57)) || ((65 <=? c) && (c <=? 90))
  || (c =? 95) || ((97 <=? c) && (c <=? 122)).

(** The class [\s]: the WhiteSpace and LineTerminator code points. *)
Definition isSpace (c : N) : bool :=
  ((9 <=? c) && (c <=? 13)) || (c =? 32) || (c =? 160) || (c =? 5760)
  || ((8192 <=? c) && (c <=? 8202)) || (c =? 8232) || (c =? 8233)
  || (c =? 8239) || (c =? 8287) || (c =? 12288) || (c =? 65279).

(** The values a field of the parsed response is taken to hold: the
    property is missing, or it is [null], or it is a string. *)
Inductive value :=
| Undefined
| Null
| Str (s : list N).

(** ToBoolean on those values: only a non-empty string is truthy. *)
Definition truthy (v : value) : bool :=
  match v with
  | Str (_ :: _) => true
  | _ => false
  end.

End JS.
Import JS.

(** ** Randomness *)

(** Computations that draw from [Math.random]: the state is the number of
    draws already made. *)
Definition M (A : Type) : Type := nat -> A * nat.

Definition ret {A} (a : A) : M A := fun n => (a, n).

Definition bind {A B} (m : M A) (k : A -> M B) : M B :=
  fun n => let (a, n') := m n in k a n'.

Notation "'let*' x ':=' m 'in' k" := (bind m (fun x => k))
  (at level 10, x name, m at level 100, k at level 200).

Definition Math_random (rand : nat -> Q) : M Q :=
  fun n => (rand n, S n).

(** [x < y] on Numbers. *)
Definition lessThan (x y : Q) : bool := negb (Qle_bool y x).

(** ** The character confusion table *)

(** The properties of the object literal [ocrErrors], in source order. *)
Definition ocrErrors_literal : list (string * string) :=
  [ (* Number/letter confusions *)
    ("O", "0"); ("0", "O"); ("I", "1"); ("1", "I"); ("l", "1"); ("1", "l");
    ("S", "5"); ("5", "S"); ("B", "8"); ("8", "B"); ("G", "6"); ("6", "G");
    ("Z", "2"); ("2", "Z"); ("q", "9"); ("9", "q");
    (* Similar letter confusions *)
    ("m", "n"); ("n", "m"); ("u", "v"); ("v", "u"); ("c", "e"); ("e", "c");
    ("a", "o"); ("o", "a"); ("h", "b"); ("b", "h"); ("p", "q"); ("q", "p");
    ("r", "n"); ("n", "r"); ("f", "t"); ("t", "f"); ("i", "j"); ("j", "i");
    (* Case confusions *)
    ("C", "c"); ("c", "C"); ("P", "p"); ("p", "P"); ("K", "k"); ("k", "K");
    ("V", "v"); ("v", "V"); ("W", "w"); ("w", "W"); ("X", "x"); ("x", "X");
    ("Y", "y"); ("y", "Y"); ("Z", "z"); ("z", "Z") ]%string.

(** Evaluating an object literal defines its properties one after the
    other; defining a name again replaces its value. *)
Definition object_of (props : list (list N * list N)) : gmap (list N) (list N) :=
  foldl (fun o kv => <[kv.1 := kv.2]> o) ∅ props.

Definition ocrErrors : gmap (list N) (list N) :=
  object_of (map (fun kv => (lit kv.1, lit kv.2)) ocrErrors_literal).

(** ** Character-level corruption *)

Definition errorRate : Q := 15 # 100.

Section CharacterPass.

Variable rand : nat -> Q.

(** One iteration of the [for] loop, on [char = text[i]] and the
    [result] built so far.  [ocrErrors[char]] is truthy when the property
    exists and its value is a non-empty string. *)
Definition loop_body (char : list N) (result : list N) : M (list N) :=
  let* r := Math_random rand in
  if lessThan r errorRate then
    match ocrErrors !! char with
    | Some (c :: v) => ret (result ++ c :: v)
    | _ =>
        let* r := Math_random rand in
        if lessThan r (3 # 10) then ret result
        else
          let* r := Math_random rand in
          if lessThan r (2 # 10) then ret (result ++ (char ++ char))
          else ret (result ++ char)
    end
  else ret (result ++ char).

(** [for (let i = 0; i < text.length; i++)], with [n] the number of
    iterations still to run; [text[i]] is defined at each of them. *)
Fixpoint for_loop (text : list N) (n i : nat) (result : list N) : M (list N) :=
  match n with
  | O => ret result
  | S n' =>
      match text !! i with
      | Some c => let* result' := loop_body [c] result in for_loop text n' (S i) result'
      | None => ret result
      end
  end.

Definition introduceRealisticOCRErrors (text : list N) : M (list N) :=
  for_loop text (length text) 0%nat [].

End CharacterPass.

(** ** Regular expressions *)

Module RegExp.

(** The fragment of the pattern language the source uses. *)
Inductive regex :=
| Class (p : N -> bool)
| Plus (p : N -> bool)
| Seq (r1 r2 : regex)
| Group (r : regex).

Section Matcher.

Context {R : Type}.

(** The greedy quantifier on a class: take one more unit when possible and
    come back to the continuation [k] when the rest of the pattern fails. *)
Fixpoint star (p : N -> bool) (s : list N) (k : list N -> option R) : option R :=
  match s with
  | c :: s' =>
      if p c then
        match star p s' k with
        | Some r => Some r
        | None => k s
        end
      else k s
  | [] => k s
  end.

(** The backtracking matcher at the start of [s]; [caps] are the captures
    of the groups closed so far and [k] matches the rest of the pattern. *)
Fixpoint run (r : regex) (s : list N) (caps : list (list N))
    (k : list (list N) -> list N -> option R) : option R :=
  match r with
  | Class p =>
      match s with
      | c :: s' => if p c then k caps s' else None
      | [] => None
      end
  | Plus p =>
      match s with
      | c :: s' => if p c then star p s' (k caps) else None
      | [] => None
      end
  | Seq r1 r2 => run r1 s caps (fun caps' s' => run r2 s' caps' k)
  | Group r' =>
      run r' s caps
        (fun caps' s' => k (caps' ++ [take (length s - length s') s]) s')
  end.

End Matcher.

(** A match at the start of [s]: the matched text and the captures. *)
Definition exec (r : regex) (s : list N) : option (list N * list (list N)) :=
  run r s [] (fun caps s' => Some (take (length s - length s') s, caps)).

(** [s.replace(r, replacer)] for a global [r], from the position where [s]
    starts; [skip] is the distance to [lastIndex].  The replacer receives
    the matched text and the captures and is called once per match, from
    left to right; an empty match advances by one unit. *)
Fixpoint replace_from (r : regex)
    (replacer : list N -> list (list N) -> M (list N))
    (s : list N) (skip : nat) : M (list N) :=
  match s with
  | [] =>
      match skip, exec r [] with
      | O, Some (m, caps) => replacer m caps
      | _, _ => ret []
      end
  | c :: s' =>
      match skip with
      | S n => replace_from r replacer s' n
      | O =>
          match exec r s with
          | Some (m, caps) =>
              let* rep := replacer m caps in
              match m with
              | [] => let* out := replace_from r replacer s' 0 in ret (rep ++ c :: out)
              | _ :: m' => let* out := replace_from r replacer s' (length m') in ret (rep ++ out)
              end
          | None => let* out := replace_from r replacer s' 0 in ret (c :: out)
          end
      end
  end.

Definition replace (r : regex) (replacer : list N -> list (list N) -> M (list N))
    (s : list N) : M (list N) :=
  replace_from r replacer s 0.

End RegExp.
Import RegExp.

(** ** Formatting noise *)

Section FormattingPass.

Variable rand : nat -> Q.

(** [/(\w+)\s+(\w+)/g] and its replacer. *)
Definition wordPair : regex :=
  Seq (Group (Plus isWord)) (Seq (Plus isSpace) (Group (Plus isWord))).

Definition breakLine (match_ : list N) (caps : list (list N)) : M (list N) :=
  let word1 := nth 0 caps [] in
  let word2 := nth 1 caps [] in
  let* r := Math_random rand in
  if lessThan r (1 # 10) then ret (word1 ++ [LF] ++ word2) else ret match_.

(** [/\s+/g] and its replacer. *)
Definition spaces : regex := Plus isSpace.

Definition removeSpaces (match_ : list N) (caps : list (list N)) : M (list N) :=
  let* r := Math_random rand in
  if lessThan r (15 # 100) then ret [] else ret match_.

(** [/(\w)/g] and its replacer. *)
Definition wordChar : regex := Group (Class isWord).

Definition addSpace (match_ : list N) (caps : list (list N)) : M (list N) :=
  let* r := Math_random rand in
  if lessThan r (8 # 100) then ret (match_ ++ [SPACE]) else ret match_.

Definition addOCRFormattingIssues (text : list N) : M (list N) :=
  let result := text in
  let* result := replace wordPair breakLine result in
  let* result := replace spaces removeSpaces result in
  let* result := replace wordChar addSpace result in
  ret result.

End FormattingPass.

(** ** Post-processing of the parsed response *)

Record Medication := {
  name : value;
  dosage : value;
  frequency : value;
  duration : value;
  instructions : value
}.

(** [medications] is [None] when the property is anything but an array. *)
Record ParsedData := {
  text : value;
  medications : option (list Medication);
  doctorName : value;
  prescriptionDate : value
}.

Section Handler.

Variable rand : nat -> Q.

Fixpoint mapM {A B} (f : A -> M B) (l : list A) : M (list B) :=
  match l with
  | [] => ret []
  | a :: l' => let* b := f a in let* bs := mapM f l' in ret (b :: bs)
  end.

(** [v ? introduceRealisticOCRErrors(v) : v]; a truthy value is a string. *)
Definition corruptIfTruthy (v : value) : M value :=
  if truthy v then
    match v with
    | Str s => let* s' := introduceRealisticOCRErrors rand s in ret (Str s')
    | _ => ret v
    end
  else ret v.

(** The callback of [parsedData.medications.map]. *)
Definition corruptMedication (med : Medication) : M Medication :=
  let* n := corruptIfTruthy (name med) in
  let* d := corruptIfTruthy (dosage med) in
  let* f := corruptIfTruthy (frequency med) in
  let* u := corruptIfTruthy (duration med) in
  let* i := corruptIfTruthy (instructions med) in
  ret {| name := n; dosage := d; frequency := f; duration := u; instructions := i |}.

(** The statements run on a validated response, whose [text] is the string
    [txt] and whose [medications] is the array [meds]. *)
Definition applyOCRErrors (txt : list N) (meds : list Medication)
    (parsedData : ParsedData) : M ParsedData :=
  let* t := (let* t := introduceRealisticOCRErrors rand txt in addOCRFormattingIssues rand t) in
  let* meds' := mapM corruptMedication meds in
  let* doc := corruptIfTruthy (doctorName parsedData) in
  ret {| text := Str t; medications := Some meds'; doctorName := doc;
         prescriptionDate := prescriptionDate parsedData |}.

(** The raw text with errors, and nothing else. *)
Definition fallback (extractedText : list N) : M ParsedData :=
  let* fallbackText :=
    (let* t := introduceRealisticOCRErrors rand extractedText in addOCRFormattingIssues rand t) in
  ret {| text := Str fallbackText; medications := Some [];
         doctorName := Str []; prescriptionDate := Str [] |}.

(** What [POST] answers once the model has replied [extractedText];
    [parsed] is the object [JSON.parse] found in it, if any.  The test
    [parsedData.text && Array.isArray(parsedData.medications)] holds when the
    text is a non-empty string and the medications are an array. *)
Definition respond (parsed : option ParsedData) (extractedText : list N) : M ParsedData :=
  match parsed with
  | Some parsedData =>
      match text parsedData, medications parsedData with
      | Str (c :: t), Some meds => applyOCRErrors (c :: t) meds parsedData
      | _, _ => fallback extractedText
      end
  | None => fallback extractedText
  end.

End Handler.

(** ** Specification-level definitions *)

(** The emission of one character, as the specification words it:
    a first draw below the error rate selects the error branch; there a
    character with a table entry is replaced by its image, otherwise a second
    draw below 0.3 drops it, otherwise a third draw below 0.2 doubles it. *)
Definition emission (rand : nat -> Q) (c : N) (n : nat) : list N * nat :=
  if lessThan (rand n) errorRate then
    match ocrErrors !! [c] with
    | Some image => (image, S n)
    | None =>
        if lessThan (rand (S n)) (3 # 10) then ([], S (S n))
        else if lessThan (rand (S (S n))) (2 # 10) then ([c; c], S (S (S n)))
        else ([c], S (S (S n)))
    end
  else ([c], S n).

(** The left-to-right concatenation of the emissions. *)
Fixpoint emissions (rand : nat -> Q) (text : list N) (n : nat) : list N * nat :=
  match text with
  | [] => ([], n)
  | c :: text' =>
      let (e, n1) := emission rand c n in
      let (out, n2) := emissions rand text' n1 in
      (e ++ out, n2)
  end.

(** The value of the last property declared under [k]. *)
Fixpoint lastDeclared (k : list N) (props : list (list N * list N)) : option (list N) :=
  match props with
  | [] => None
  | (k', v) :: props' =>
      match lastDeclared k props' with
      | Some v' => Some v'
      | None => if decide (k' = k) then Some v else None
      end
  end.

(** The longest prefix of [s] made of units of the class [p], and what
    comes after it. *)
Fixpoint prefixOf (p : N -> bool) (s : list N) : list N :=
  match s with
  | c :: s' => if p c then c :: prefixOf p s' else []
  | [] => []
  end.

Fixpoint afterPrefix (p : N -> bool) (s : list N) : list N :=
  match s with
  | c :: s' => if p c then afterPrefix p s' else s
  | [] => []
  end.

(** The word run, whitespace run and word run the text starts with. *)
Definition wordPairAt (s : list N) : option (list N * list N * list N) :=
  let w1 := prefixOf isWord s in
  let ws := prefixOf isSpace (afterPrefix isWord s) in
  let w2 := prefixOf isWord (afterPrefix isSpace (afterPrefix isWord s)) in
  match w1, ws, w2 with
  | _ :: _, _ :: _, _ :: _ => Some (w1, ws, w2)
  | _, _, _ => None
  end.

(** The emissions of a text, one piece per character. *)
Fixpoint pieces (rand : nat -> Q) (text : list N) (n : nat) : list (list N) :=
  match text with
  | [] => []
  | c :: text' => (emission rand c n).1 :: pieces rand text' (emission rand c n).2
  end.

(** The text without its whitespace. *)
Fixpoint stripSpaces (s : list N) : list N :=
  match s with
  | [] => []
  | c :: s' => if isSpace c then stripSpaces s' else c :: stripSpaces s'
  end.

(** Every unit of [b] is a unit of [a], a space or a line break. *)
Definition addsOnlyBreaksAndSpaces (a b : list N) : Prop :=
  forall x, x ∈ b -> x ∈ a \/ x = SPACE \/ x = LF.

(** One draw per word character, in order; a draw below 0.08 puts a space
    after that character.  Other units are copied and cost no draw. *)
Fixpoint spaceAfterWordChars (rand : nat -> Q) (s : list N) (n : nat) : list N * nat :=
  match s with
  | [] => ([], n)
  | c :: s' =>
      if isWord c then
        let (out, n') := spaceAfterWordChars rand s' (S n) in
        ((if lessThan (rand n) (8 # 100) then [c; SPACE] else [c]) ++ out, n')
      else
        let (out, n') := spaceAfterWordChars rand s' n in
        (c :: out, n')
  end.

(** [v'] is [v] after the character-level pass and nothing else, run from
    some position of the stream; a value that is not a non-empty string is
    kept. *)
Definition charPassOnly (rand : nat -> Q) (v v' : value) : Prop :=
  match v with
  | Str (c :: s) => exists k, v' = Str (introduceRealisticOCRErrors rand (c :: s) k).1
  | _ => v' = v
  end.

(** A relation on values, on each of the five fields of a medication. *)
Definition fieldwise (P : value -> value -> Prop) (med med' : Medication) : Prop :=
  P (name med) (name med') /\
  P (dosage med) (dosage med') /\
  P (frequency med) (frequency med') /\
  P (duration med) (duration med') /\
  P (instructions med) (instructions med').

(** The fields of [out] are those of [parsedData] after the passes the
    orchestrator is to apply: both passes on the text, the character-level
    pass alone on the medication fields and the doctor name. *)
Definition orchestrated (rand : nat -> Q) (parsedData out : ParsedData) : Prop :=
  (exists s k, text parsedData = Str s /\
     text out = Str (let (t1, k1) := introduceRealisticOCRErrors rand s k in
                     (addOCRFormattingIssues rand t1 k1).1)) /\
  (exists meds meds', medications parsedData = Some meds /\
     medications out = Some meds' /\
     Forall2 (fieldwise (charPassOnly rand)) meds meds') /\
  charPassOnly rand (doctorName parsedData) (doctorName out).

(** A value that is not truthy comes back as it is. *)
Definition keptIfFalsy (v v' : value) : Prop := truthy v = false -> v' = v.

(** Streams used in examples. *)
Definition low : nat -> Q := fun _ => 0%Q.
Definition high : nat -> Q := fun _ => (1 # 2)%Q.

(** A stream whose first draw is 0 and whose other draws are 1/2. *)
Definition firstLow : nat -> Q :=
  fun n => match n with O => 0%Q | S _ => (1 # 2)%Q end.

(** The stream [firstLow], written with a test on the position. *)
Definition firstLow' : nat -> Q :=
  fun n => if Nat.eqb n 0 then 0%Q else (1 # 2)%Q.

(** A JSON text, written with single quotes for the double ones. *)
Definition json (s : string) : list N :=
  map (fun c => if c =? 39 then 34 else c) (lit s).

Definition aspirin : Medication :=
  {| name := Str (lit "Aspirin"); dosage := Str []; frequency := Null;
     duration := Undefined; instructions := Undefined |}.

(** A reply whose text is empty, and the object [JSON.parse] makes of it. *)
Definition emptyTextReply : list N :=
  json "{'text':'','medications':[{'name':'Aspirin','dosage':'','frequency':null}],'doctorName':'Dr Who','prescriptionDate':'2024-01-01'}".

Definition emptyTextParsed : ParsedData :=
  {| text := Str []; medications := Some [aspirin];
     doctorName := Str (lit "Dr Who"); prescriptionDate := Str (lit "2024-01-01") |}.

(** The same reply with a text. *)
Definition tabletParsed : ParsedData :=
  {| text := Str (lit "Take 1 tablet twice daily"); medications := Some [aspirin];
     doctorName := Str (lit "Dr Who"); prescriptionDate := Str (lit "2024-01-01") |}.

(** The number of word characters of a text. *)
Definition wordCount (s : list N) : nat := length (List.filter isWord s).

(** ** The uploader component *)

Module Uploader.

(** [String.prototype.trim]: the text without the whitespace and line
    terminators at its two ends (the units of the class [\s]). *)
Definition trimStart (s : list N) : list N := afterPrefix isSpace s.

Definition trim (s : list N) : list N := rev (trimStart (rev (trimStart s))).

(** [v || null] *)
Definition orNull (v : value) : value := if truthy v then v else Null.

(** A row of the table [medications]. *)
Record MedicationRow := {
  prescription_id : list N;
  row_name : list N;
  row_dosage : value;
  row_frequency : value;
  row_duration : value;
  row_instructions : value
}.

(** [med.name && med.name.trim()], as the filter reads it. *)
Definition hasName (med : Medication) : bool :=
  match name med with
  | Str s => truthy (Str s) && truthy (Str (trim s))
  | _ => false
  end.

(** [med.name.trim()] on a medication that went through the filter. *)
Definition trimmedName (med : Medication) : list N :=
  match name med with
  | Str s => trim s
  | _ => []
  end.

(** [extractedData.medications.filter(...).map(...)] in [handleSave];
    [prescriptionId] is the id the database gave to the prescription. *)
Definition medicationsToInsert (prescriptionId : list N) (meds : list Medication)
    : list MedicationRow :=
  map (fun med =>
         {| prescription_id := prescriptionId;
            row_name := trimmedName med;
            row_dosage := orNull (dosage med);
            row_frequency := orNull (frequency med);
            row_duration := orNull (duration med);
            row_instructions := orNull (instructions med) |})
      (List.filter hasName meds).

(** A row of the table [prescriptions]. *)
Record PrescriptionRow := {
  user_id : list N;
  title : list N;
  extracted_text : value;
  original_filename : value;
  image_url : value;
  row_medications : list Medication;
  doctor_name : value;
  prescription_date : value;
  status : list N
}.

(** The object [prescriptionData] of [handleSave]; [extractedData] is the
    answer of the route, as [response.json()] gives it back. *)
Definition prescriptionData (userId title : list N) (fileName imageUrl : value)
    (extractedData : ParsedData) : PrescriptionRow :=
  {| user_id := userId;
     title := trim title;
     extracted_text := text extractedData;
     original_filename := orNull fileName;
     image_url := imageUrl;
     row_medications :=
       match medications extractedData with
       | Some meds => meds
       | None => []
       end;
     doctor_name := orNull (doctorName extractedData);
     prescription_date := orNull (prescriptionDate extractedData);
     status := lit "active" |}.

(** The rows [handleSave] sends to the two tables when the database takes
    them, or [None] when it returns at once
    ([!extractedData || !user || !title.trim()]).  The medication rows are
    built when the list is not empty and sent when at least one is left. *)
Definition handleSave (user : option (list N)) (title : list N)
    (fileName imageUrl : value) (extractedData : option ParsedData)
    (prescriptionId : list N) : option (PrescriptionRow * list MedicationRow) :=
  match extractedData, user with
  | Some data, Some userId =>
      if truthy (Str (trim title)) then
        Some (prescriptionData userId title fileName imageUrl data,
              match medications data with
              | Some (med :: meds) => medicationsToInsert prescriptionId (med :: meds)
              | _ => []
              end)
      else None
  | _, _ => None
  end.

(** [[^a-zA-Z0-9.-]] *)
Definition unsafeChar (c : N) : bool :=
  negb (((97 <=? c) && (c <=? 122)) || ((65 <=? c) && (c <=? 90))
        || ((48 <=? c) && (c <=? 57)) || (c =? 46) || (c =? 45)).

(** [file.name.replace(/[^a-zA-Z0-9.-]/g, "_")] *)
Definition safeName (fileName : list N) : list N :=
  (replace (Class unsafeChar) (fun _ _ => ret (lit "_")) fileName 0%nat).1.

(** The decimal digits of a number, as a string. *)
Definition decimal (n : N) : list N :=
  lit (NilEmpty.string_of_uint (N.to_uint n)).

(** The storage key [`${user.id}/${Date.now()}-${...}`]; [now] is the
    number of milliseconds [Date.now()] returns, an integer that the template
    writes with its decimal digits. *)
Definition storageKey (userId : list N) (now : N) (fileName : list N) : list N :=
  userId ++ lit "/" ++ decimal now ++ lit "-" ++ safeName fileName.

(** [/\.[^/.]+$/]: the pattern before the anchor, and a match of it that
    runs to the end of the text. *)
Definition notSlashOrDot (c : N) : bool := negb ((c =? 47) || (c =? 46)).

Definition extension : regex :=
  Seq (Class (N.eqb 46)) (Plus notSlashOrDot).

Definition execToEnd (r : regex) (s : list N) : option (list N * list (list N)) :=
  run r s [] (fun caps s' => match s' with [] => Some (s, caps) | _ :: _ => None end).

(** [s.replace(r$, replacement)] without the global flag: the leftmost match
    is replaced, and it runs to the end of the text. *)
Fixpoint replaceToEnd (r : regex) (replacement : list N) (s : list N) : list N :=
  match execToEnd r s with
  | Some _ => replacement
  | None =>
      match s with
      | [] => []
      | c :: s' => c :: replaceToEnd r replacement s'
      end
  end.

(** The default title of [handleFileSelect]:
    [selectedFile.name.replace(/\.[^/.]+$/, "")]. *)
Definition defaultTitle (fileName : list N) : list N :=
  replaceToEnd extension [] fileName.

(** [s.split(",")]: the pieces between the commas. *)
Fixpoint split (sep : N) (s : list N) : list (list N) :=
  match s with
  | [] => [[]]
  | c :: s' =>
      if c =? sep then [] :: split sep s'
      else
        match split sep s' with
        | piece :: pieces => (c :: piece) :: pieces
        | [] => [[c]]
        end
  end.

(** [base64.split(",")[1]] in [convertToBase64]: the piece after the first
    comma of the data URL, [undefined] when there is no comma. *)
Definition payloadOf (dataUrl : list N) : value :=
  match split 44 dataUrl !! 1%nat with
  | Some piece => Str piece
  | None => Undefined
  end.

End Uploader.

(** ** The records page *)

Module Records.

(** The fields of a prescription the page filters on. *)
Record Prescription := {
  id : list N;
  title : list N;
  extracted_text : list N;
  doctor_name : value;
  status : list N
}.

(** [s.startsWith(t)] and [s.includes(t)]. *)
Fixpoint startsWith (s t : list N) : bool :=
  match t, s with
  | [], _ => true
  | _ :: _, [] => false
  | x :: t', y :: s' => (x =? y) && startsWith s' t'
  end.

Fixpoint includes (s t : list N) : bool :=
  startsWith s t ||
  match s with
  | [] => false
  | _ :: s' => includes s' t
  end.

(** [a === b] on strings. *)
Definition sameString (a b : list N) : bool := bool_decide (a = b).

Section Filter.

(** [String.prototype.toLowerCase]. *)
Variable toLowerCase : list N -> list N.

(** The predicate of the search filter. *)
Definition matchesSearch (searchTerm : list N) (prescription : Prescription) : bool :=
  includes (toLowerCase (title prescription)) (toLowerCase searchTerm)
  || includes (toLowerCase (extracted_text prescription)) (toLowerCase searchTerm)
  || match doctor_name prescription with
     | Str (c :: d) => includes (toLowerCase (c :: d)) (toLowerCase searchTerm)
     | _ => false
     end.

(** [filterPrescriptions], returning what it stores with
    [setFilteredPrescriptions]. *)
Definition filterPrescriptions (prescriptions : list Prescription)
    (searchTerm statusFilter : list N) : list Prescription :=
  let filtered := prescriptions in
  let filtered :=
    if truthy (Str searchTerm) then List.filter (matchesSearch searchTerm) filtered
    else filtered in
  let filtered :=
    if negb (sameString statusFilter (lit "all")) then
      List.filter (fun prescription => sameString (status prescription) statusFilter) filtered
    else filtered in
  filtered.

End Filter.

End Records.

(** The name of the medication is a string with a unit that is not
    whitespace. *)
Definition nameNotBlank (med : Medication) : bool :=
  match name med with
  | Str s => negb (bool_decide (stripSpaces s = []))
  | _ => false
  end.

(** Lower case on the ASCII letters, a lower-casing used in examples. *)
Definition asciiLower (s : list N) : list N :=
  map (fun c => if (65 <=? c) && (c <=? 90) then c + 32 else c) s.

(** ** The confusion table *)

Lemma object_of_from (props : list (list N * list N)) (o : gmap (list N) (list N)) k :
  foldl (fun o kv => <[kv.1 := kv.2]> o) o props !! k =
  match lastDeclared k props with
  | Some v => Some v
  | None => o !! k
  end.
Proof.
  revert o. induction props as [|[k' v] props IH]; intros o; simpl; [done|].
  rewrite IH. destruct (lastDeclared k props); [done|].
  rewrite lookup_insert. simpl. by destruct (decide (k' = k)).
Qed.

Lemma object_of_lookup props k : object_of props !! k = lastDeclared k props.
Proof.
  unfold object_of. rewrite object_of_from, lookup_empty.
  by destruct (lastDeclared k props).
Qed.

(** Every property of the table has a one-unit name and a one-unit value. *)
Lemma ocrErrors_entries k v :
  ocrErrors !! k = Some v -> exists a b, k = [a] /\ v = [b].
Proof.
  intros Hk.
  assert (Hall : map_Forall (fun k v => length k = 1%nat /\ length v = 1%nat) ocrErrors).
  { apply (bool_decide_unpack _). vm_compute. exact I. }
  destruct (map_Forall_lookup_1 _ _ _ _ Hall Hk) as [H1 H2].
  destruct k as [|a [|]]; try discriminate.
  destruct v as [|b [|]]; try discriminate.
  by exists a, b.
Qed.

(** ** The character-level pass *)

Section CharacterPassFacts.

Variable rand : nat -> Q.

(** One iteration appends the emission of its character. *)
Lemma loop_body_emission c result n :
  loop_body rand [c] result n =
  (result ++ (emission rand c n).1, (emission rand c n).2).
Proof.
  unfold loop_body, emission, bind, Math_random, ret.
  destruct (lessThan (rand n) errorRate).
  - destruct (ocrErrors !! [c]) as [v|] eqn:E.
    + destruct (ocrErrors_entries _ _ E) as (a & b & _ & ->). done.
    + destruct (lessThan (rand (S n)) (3 # 10)); simpl.
      * by rewrite app_nil_r.
      * by destruct (lessThan (rand (S (S n))) (2 # 10)).
  - done.
Qed.

Lemma for_loop_emissions text k i result n :
  (i + k = length text)%nat ->
  for_loop rand text k i result n =
  (result ++ (emissions rand (drop i text) n).1, (emissions rand (drop i text) n).2).
Proof.
  revert i result n. induction k as [|k IH]; intros i result n Hlen.
  - rewrite drop_ge by lia. simpl. by rewrite app_nil_r.
  - destruct (lookup_lt_is_Some_2 text i) as [c Hc]; [lia|].
    simpl. rewrite Hc. unfold bind at 1. rewrite loop_body_emission.
    rewrite IH by lia. rewrite (drop_S _ _ _ Hc). simpl.
    destruct (emission rand c n) as [e n1]. simpl.
    destruct (emissions rand (drop (S i) text) n1) as [out n2]. simpl.
    by rewrite <- app_assoc.
Qed.

Lemma introduceRealisticOCRErrors_emissions text n :
  introduceRealisticOCRErrors rand text n = emissions rand text n.
Proof.
  unfold introduceRealisticOCRErrors.
  rewrite for_loop_emissions by lia. rewrite drop_0. simpl.
  by destruct (emissions rand text n).
Qed.

(** What a single emission can be. *)
Lemma emission_cases c n :
  (emission rand c n).1 = [] \/ (exists b, (emission rand c n).1 = [b]) \/
  (emission rand c n).1 = [c; c].
Proof.
  unfold emission. destruct (lessThan (rand n) errorRate).
  - destruct (ocrErrors !! [c]) as [v|] eqn:E.
    + destruct (ocrErrors_entries _ _ E) as (a & b & _ & ->). right. left. by exists b.
    + destruct (lessThan (rand (S n)) (3 # 10)); [by left|].
      destruct (lessThan (rand (S (S n))) (2 # 10)); [by right; right|].
      right. left. by exists c.
  - right. left. by exists c.
Qed.

Lemma emissions_pieces text n : (emissions rand text n).1 = concat (pieces rand text n).
Proof.
  revert n. induction text as [|c text IH]; intros n; simpl; [done|].
  rewrite <- IH. destruct (emission rand c n) as [e n1]. simpl.
  by destruct (emissions rand text n1).
Qed.

Lemma pieces_shape text n :
  Forall2 (fun c p => p = [] \/ (exists b, p = [b]) \/ p = [c; c]) text (pieces rand text n).
Proof.
  revert n. induction text as [|c text IH]; intros n; simpl; constructor.
  - apply emission_cases.
  - apply IH.
Qed.

Lemma pieces_length text n : (length (concat (pieces rand text n)) <= 2 * length text)%nat.
Proof.
  revert n. induction text as [|c text IH]; intros n; simpl; [lia|].
  rewrite length_app. specialize (IH (emission rand c n).2).
  destruct (emission_cases c n) as [-> | [[b ->] | ->]]; simpl; lia.
Qed.

End CharacterPassFacts.

(** The scenarios of the specification: no draw below the error rate leaves
    the text as it is; with every draw below it, both characters of "11" are
    replaced through the table and nothing is dropped or doubled. *)
Example no_error_is_identity :
  introduceRealisticOCRErrors high (lit "Take 1 tablet twice daily") 0%nat =
  (lit "Take 1 tablet twice daily", 25%nat).
Proof. vm_compute. reflexivity. Qed.

Example substitution_comes_first :
  introduceRealisticOCRErrors low (lit "11") 0%nat = (lit "ll", 2%nat).
Proof. vm_compute. reflexivity. Qed.

Example drop_needs_no_third_draw :
  introduceRealisticOCRErrors low (lit "a!1") 0%nat = (lit "ol", 4%nat).
Proof. vm_compute. reflexivity. Qed.

(** C1. The character-level pass returns the left-to-right concatenation of
    the per-character emissions: a first draw below 0.15 selects the error
    branch, where a table entry wins over dropping (second draw below 0.3)
    and doubling (third draw below 0.2, only looked at when the character is
    not dropped); a first draw of 0.15 or more emits the character as it is. *)
Theorem C1_character_pass_is_concatenated_emissions (rand : nat -> Q) (text : list N) (n : nat) :
  introduceRealisticOCRErrors rand text n = emissions rand text n.
Proof. apply introduceRealisticOCRErrors_emissions. Qed.

(** C3. The output of the character-level pass on a text of length N has at
    most 2N units: it is the concatenation of one piece per input character,
    and each piece is empty, one unit, or the character twice. *)
Theorem C3_length_bound (rand : nat -> Q) (text : list N) (n : nat) :
  let out := (introduceRealisticOCRErrors rand text n).1 in
  (0 <= length out <= 2 * length text)%nat /\
  exists ps : list (list N),
    out = concat ps /\
    Forall2 (fun c p => p = [] \/ (exists b, p = [b]) \/ p = [c; c]) text ps.
Proof.
  simpl. rewrite introduceRealisticOCRErrors_emissions, emissions_pieces. split.
  - split; [lia | apply pieces_length].
  - exists (pieces rand text n). split; [done | apply pieces_shape].
Qed.

(** C8. The table keeps, for every name, the value of its last declaration
    (so "1" maps to "l", "n" to "r", "q" to "p", "c" to "C", "p" to "P" and
    "v" to "V"), and a character without an entry is never replaced by another
    one: its iteration appends nothing, the character, or the character twice,
    and the character itself when the first draw is not below the error rate. *)
Theorem C8_last_write_wins :
  (forall k, ocrErrors !! k =
     lastDeclared k (map (fun kv => (lit kv.1, lit kv.2)) ocrErrors_literal)) /\
  (ocrErrors !! lit "1" = Some (lit "l") /\ ocrErrors !! lit "n" = Some (lit "r") /\
   ocrErrors !! lit "q" = Some (lit "p") /\ ocrErrors !! lit "c" = Some (lit "C") /\
   ocrErrors !! lit "p" = Some (lit "P") /\ ocrErrors !! lit "v" = Some (lit "V")) /\
  (forall rand c result n,
     ocrErrors !! [c] = None ->
     exists e, (loop_body rand [c] result n).1 = result ++ e /\
       (e = [] \/ e = [c] \/ e = [c; c]) /\
       (lessThan (rand n) errorRate = false -> e = [c])).
Proof.
  split; [|split].
  - intros k. apply object_of_lookup.
  - vm_compute. tauto.
  - intros rand c result n Hc. rewrite loop_body_emission. simpl.
    exists (emission rand c n).1. split; [done|].
    unfold emission. rewrite Hc.
    destruct (lessThan (rand n) errorRate); [|by auto].
    split; [|discriminate].
    destruct (lessThan (rand (S n)) (3 # 10)); [by auto|].
    destruct (lessThan (rand (S (S n))) (2 # 10)); auto.
Qed.

Lemma C8_last_write_wins_witness :
  ocrErrors !! [33] = None /\
  exists e, (loop_body high [33] (lit "a") 0%nat).1 = lit "a" ++ e /\
    (e = [] \/ e = [33] \/ e = [33; 33]) /\
    (lessThan (high 0%nat) errorRate = false -> e = [33]).
Proof.
  split; [vm_compute; reflexivity|].
  destruct C8_last_write_wins as (_ & _ & H).
  apply (H high 33 (lit "a") 0%nat). vm_compute. reflexivity.
Defined.

(** ** The matcher *)

Section MatcherFacts.

Lemma prefixOf_afterPrefix p s : prefixOf p s ++ afterPrefix p s = s.
Proof. induction s as [|c s IH]; simpl; [done|]. destruct (p c); simpl; congruence. Qed.

Lemma prefixOf_Forall p s : Forall (fun c => p c = true) (prefixOf p s).
Proof.
  induction s as [|c s IH]; simpl; [constructor|].
  destruct (p c) eqn:E; by constructor.
Qed.

Lemma take_prefixOf p s : take (length s - length (afterPrefix p s)) s = prefixOf p s.
Proof.
  rewrite <- (prefixOf_afterPrefix p s) at 1 3.
  rewrite length_app. apply take_app_length'. lia.
Qed.

Lemma prefixOf_app p a s :
  Forall (fun c => p c = true) a -> prefixOf p (a ++ s) = a ++ prefixOf p s.
Proof. induction 1 as [|c a Hc _ IH]; simpl; [done|]. by rewrite Hc, IH. Qed.

Lemma afterPrefix_app p a s :
  Forall (fun c => p c = true) a -> afterPrefix p (a ++ s) = afterPrefix p s.
Proof. induction 1 as [|c a Hc _ IH]; simpl; [done|]. by rewrite Hc. Qed.

Context {R : Type}.

(** When the rest of the pattern cannot start inside the run, giving units
    back never helps: the quantifier keeps the whole run. *)
Lemma star_committed p s (k : list N -> option R) :
  (forall c t, p c = true -> k (c :: t) = None) ->
  star p s k = k (afterPrefix p s).
Proof.
  intros Hk. induction s as [|c s IH]; simpl; [done|].
  destruct (p c) eqn:E; [|done].
  rewrite IH. destruct (k (afterPrefix p s)); [done|]. by apply Hk.
Qed.

(** When the rest of the pattern succeeds after the whole run, that is the
    match. *)
Lemma star_greedy p s (k : list N -> option R) :
  is_Some (k (afterPrefix p s)) ->
  star p s k = k (afterPrefix p s).
Proof.
  intros [res Hk]. induction s as [|c s IH]; simpl in *; [done|].
  destruct (p c) eqn:E; [|done].
  rewrite IH by done. by rewrite Hk.
Qed.

Lemma run_Plus_committed p s caps (k : list (list N) -> list N -> option R) :
  (forall c t, p c = true -> k caps (c :: t) = None) ->
  run (Plus p) s caps k =
  match prefixOf p s with
  | [] => None
  | _ :: _ => k caps (afterPrefix p s)
  end.
Proof.
  intros Hk. destruct s as [|c s]; simpl; [done|].
  destruct (p c); [|done]. by apply star_committed.
Qed.

Lemma run_Plus_greedy p s caps (k : list (list N) -> list N -> option R) :
  (forall t, is_Some (k caps t)) ->
  run (Plus p) s caps k =
  match prefixOf p s with
  | [] => None
  | _ :: _ => k caps (afterPrefix p s)
  end.
Proof.
  intros Hk. destruct s as [|c s]; simpl; [done|].
  destruct (p c); [|done]. by apply star_greedy.
Qed.

Lemma run_Seq r1 r2 s caps (k : list (list N) -> list N -> option R) :
  run (Seq r1 r2) s caps k = run r1 s caps (fun caps' s' => run r2 s' caps' k).
Proof. reflexivity. Qed.

Lemma run_Group r s caps (k : list (list N) -> list N -> option R) :
  run (Group r) s caps k =
  run r s caps (fun caps' s' => k (caps' ++ [take (length s - length s') s]) s').
Proof. reflexivity. Qed.

(** The continuation only ever sees proper suffixes of the input. *)
Lemma star_suffix p s (k : list N -> option R) res :
  star p s k = Some res ->
  exists pre s', s = pre ++ s' /\ k s' = Some res.
Proof.
  revert res. induction s as [|c s IH]; intros res; simpl.
  - intros H. by exists [], [].
  - destruct (p c).
    + destruct (star p s k) as [res'|] eqn:E.
      * intros [= ->]. destruct (IH _ eq_refl) as (pre & s' & -> & Hk).
        by exists (c :: pre), s'.
      * intros H. by exists [], (c :: s).
    + intros H. by exists [], (c :: s).
Qed.

Lemma run_suffix r s caps (k : list (list N) -> list N -> option R) res :
  run r s caps k = Some res ->
  exists c pre s' caps', s = c :: pre ++ s' /\ k caps' s' = Some res.
Proof.
  revert s caps k res. induction r as [p|p|r1 IH1 r2 IH2|r IH]; intros s caps k res; simpl.
  - destruct s as [|c s]; [done|]. destruct (p c); [|done].
    intros H. by exists c, [], s, caps.
  - destruct s as [|c s]; [done|]. destruct (p c); [|done].
    intros H. destruct (star_suffix _ _ _ _ H) as (pre & s' & -> & Hk).
    by exists c, pre, s', caps.
  - intros H. destruct (IH1 _ _ _ _ H) as (c & pre & s1 & caps1 & -> & H1).
    destruct (IH2 _ _ _ _ H1) as (c' & pre' & s2 & caps2 & -> & H2).
    exists c, (pre ++ c' :: pre'), s2, caps2.
    split; [|done]. by rewrite <- app_assoc.
  - intros H. destruct (IH _ _ _ _ H) as (c & pre & s' & caps' & -> & Hk).
    by exists c, pre, s', (caps' ++ [take (length (c :: pre ++ s') - length s') (c :: pre ++ s')]).
Qed.

End MatcherFacts.

(** A match is a non-empty prefix of the text. *)
Lemma exec_prefix r s m caps :
  exec r s = Some (m, caps) ->
  exists c m', m = c :: m' /\ s = m ++ drop (length m) s.
Proof.
  unfold exec. intros H.
  destruct (run_suffix _ _ _ _ _ H) as (c & pre & s' & caps' & -> & [= <- _]).
  exists c, pre.
  assert (Hlen : (S (length (pre ++ s')) - length s' = length (c :: pre))%nat)
    by (simpl; rewrite length_app; lia).
  rewrite Hlen. change (c :: pre ++ s') with ((c :: pre) ++ s').
  rewrite take_app_length. split; [done|].
  by rewrite drop_app_length.
Qed.

Lemma exec_nil r : exec r [] = None.
Proof.
  destruct (exec r []) as [[m caps]|] eqn:E; [|done].
  destruct (exec_prefix _ _ _ _ E) as (c & m' & -> & H). discriminate.
Qed.

(** *** The two classes *)

Lemma isWord_range c : isWord c = true -> 48 <= c <= 122.
Proof.
  unfold isWord.
  rewrite !orb_true_iff, !andb_true_iff, !N.leb_le, N.eqb_eq. lia.
Qed.

Lemma isSpace_range c : isSpace c = true -> c <= 32 \/ 160 <= c.
Proof.
  unfold isSpace.
  rewrite !orb_true_iff, !andb_true_iff, !N.leb_le, !N.eqb_eq. lia.
Qed.

Lemma isWord_not_space c : isWord c = true -> isSpace c = false.
Proof.
  intros Hw. destruct (isSpace c) eqn:Hs; [|done].
  apply isWord_range in Hw. apply isSpace_range in Hs. lia.
Qed.

Lemma isSpace_not_word c : isSpace c = true -> isWord c = false.
Proof.
  intros Hs. destruct (isWord c) eqn:Hw; [|done].
  apply isWord_range in Hw. apply isSpace_range in Hs. lia.
Qed.

(** *** The three patterns of the formatting pass, in closed form *)

Lemma exec_wordChar s :
  exec wordChar s =
  match s with
  | c :: _ => if isWord c then Some ([c], [[c]]) else None
  | [] => None
  end.
Proof.
  destruct s as [|c s]; [done|]. unfold exec, wordChar. simpl run.
  destruct (isWord c); [|done].
  replace (S (length s) - length s)%nat with 1%nat by lia. done.
Qed.

Lemma exec_spaces s :
  exec spaces s =
  match prefixOf isSpace s with
  | [] => None
  | c :: m => Some (c :: m, [])
  end.
Proof.
  unfold exec, spaces. rewrite run_Plus_greedy by (intros t; eauto).
  rewrite take_prefixOf. by destruct (prefixOf isSpace s).
Qed.

Lemma exec_wordPair s :
  exec wordPair s =
  match wordPairAt s with
  | Some (w1, ws, w2) => Some (w1 ++ ws ++ w2, [w1; w2])
  | None => None
  end.
Proof.
  unfold exec, wordPair, wordPairAt.
  rewrite run_Seq, run_Group, run_Plus_committed.
  2:{ intros c t Hc. simpl. by rewrite (isWord_not_space _ Hc). }
  destruct (prefixOf isWord s) as [|a w1] eqn:E1; [done|].
  rewrite run_Seq, run_Plus_committed.
  2:{ intros c t Hc. simpl. by rewrite (isSpace_not_word _ Hc). }
  destruct (prefixOf isSpace (afterPrefix isWord s)) as [|b ws] eqn:E2; [done|].
  rewrite run_Group, run_Plus_greedy by (intros t; eauto).
  destruct (prefixOf isWord (afterPrefix isSpace (afterPrefix isWord s)))
    as [|d w2] eqn:E3; [done|].
  rewrite !take_prefixOf, E1, E3. simpl app at 2. f_equal. f_equal.
  pose proof (prefixOf_afterPrefix isWord s) as H1.
  pose proof (prefixOf_afterPrefix isSpace (afterPrefix isWord s)) as H2.
  pose proof (prefixOf_afterPrefix isWord (afterPrefix isSpace (afterPrefix isWord s))) as H3.
  rewrite E1 in H1. rewrite E2 in H2. rewrite E3 in H3.
  set (s3 := afterPrefix isWord (afterPrefix isSpace (afterPrefix isWord s))) in *.
  rewrite <- H1 at 1 2. rewrite <- H2 at 1 2. rewrite <- H3 at 1 2.
  rewrite !app_assoc. apply take_app_length'.
  rewrite !length_app. lia.
Qed.

(** *** Unfolding [replace] *)

Section ReplaceFacts.

Variable r : regex.
Variable f : list N -> list (list N) -> M (list N).

Lemma replace_from_skip s k n :
  (k <= length s)%nat ->
  replace_from r f s k n = replace_from r f (drop k s) 0 n.
Proof.
  revert k. induction s as [|c s IH]; intros k Hk.
  - by replace k with 0%nat by (simpl in Hk; lia).
  - destruct k as [|k]; [done|]. simpl in *. apply IH. lia.
Qed.

(** The scan, one match or one unit at a time. *)
Lemma replace_step s n :
  replace r f s n =
  match s with
  | [] => ([], n)
  | c :: s' =>
      match exec r s with
      | Some (m, caps) =>
          let (rep, n1) := f m caps n in
          let (out, n2) := replace r f (drop (length m) s) n1 in
          (rep ++ out, n2)
      | None =>
          let (out, n1) := replace r f s' n in
          (c :: out, n1)
      end
  end.
Proof.
  unfold replace. destruct s as [|c s]; simpl.
  - by rewrite exec_nil.
  - destruct (exec r (c :: s)) as [[m caps]|] eqn:E.
    + destruct (exec_prefix _ _ _ _ E) as (c' & m' & -> & Hs).
      unfold bind at 1. destruct (f (c' :: m') caps n) as [rep n1].
      unfold bind, ret. simpl drop.
      rewrite replace_from_skip.
      * by destruct (replace_from r f (drop (length m') s) 0 n1).
      * simpl in Hs. injection Hs as _ Hs.
        rewrite Hs, length_app. lia.
    + unfold bind, ret. by destruct (replace_from r f s 0 n).
Qed.

End ReplaceFacts.

(** A relation between a text and its replacement that holds of every match
    and is kept by copying a unit and by concatenation holds of the whole
    scan. *)
Section ReplaceRel.

Variable Rel : list N -> list N -> Prop.
Hypothesis Rel_nil : Rel [] [].
Hypothesis Rel_cons : forall c a a', Rel a a' -> Rel (c :: a) (c :: a').
Hypothesis Rel_app : forall m rep a a', Rel m rep -> Rel a a' -> Rel (m ++ a) (rep ++ a').

Variable r : regex.
Variable f : list N -> list (list N) -> M (list N).
Hypothesis Rel_match : forall s m caps n, exec r s = Some (m, caps) -> Rel m (f m caps n).1.

Lemma replace_rel_bounded k : forall s n, (length s <= k)%nat -> Rel s (replace r f s n).1.
Proof.
  induction k as [|k IH]; intros s n Hk.
  - destruct s; [|simpl in Hk; lia]. by rewrite replace_step.
  - rewrite replace_step. destruct s as [|c s]; [done|].
    destruct (exec r (c :: s)) as [[m caps]|] eqn:E.
    + pose proof (Rel_match _ _ _ n E) as Hm.
      destruct (exec_prefix _ _ _ _ E) as (c' & m' & -> & Hs).
      destruct (f (c' :: m') caps n) as [rep n1]. simpl in Hm.
      assert (Hlen : (length (drop (length (c' :: m')) (c :: s)) <= k)%nat).
      { rewrite length_drop. simpl in *. lia. }
      specialize (IH _ n1 Hlen).
      destruct (replace r f (drop (length (c' :: m')) (c :: s)) n1) as [out n2].
      simpl in *. rewrite Hs. by apply (Rel_app (c' :: m')).
    + assert (Hlen : (length s <= k)%nat) by (simpl in Hk; lia).
      specialize (IH s n Hlen).
      destruct (replace r f s n) as [out n1]. simpl. by apply Rel_cons.
Qed.

Lemma replace_rel s n : Rel s (replace r f s n).1.
Proof. by apply (replace_rel_bounded (length s)). Qed.

End ReplaceRel.

(** ** The formatting pass *)

Lemma stripSpaces_app a b : stripSpaces (a ++ b) = stripSpaces a ++ stripSpaces b.
Proof. induction a as [|c a IH]; simpl; [done|]. destruct (isSpace c); simpl; congruence. Qed.

Lemma stripSpaces_run ws : Forall (fun c => isSpace c = true) ws -> stripSpaces ws = [].
Proof. induction 1 as [|c ws Hc _ IH]; simpl; [done|]. by rewrite Hc. Qed.

Section FormattingPassFacts.

Variable rand : nat -> Q.

Lemma addOCRFormattingIssues_steps text n :
  addOCRFormattingIssues rand text n =
  let (r1, n1) := replace wordPair (breakLine rand) text n in
  let (r2, n2) := replace spaces (removeSpaces rand) r1 n1 in
  replace wordChar (addSpace rand) r2 n2.
Proof.
  unfold addOCRFormattingIssues, bind, ret.
  destruct (replace wordPair (breakLine rand) text n) as [r1 n1].
  destruct (replace spaces (removeSpaces rand) r1 n1) as [r2 n2].
  by destruct (replace wordChar (addSpace rand) r2 n2).
Qed.

(** What the three replacers return. *)
Lemma breakLine_match s m caps n :
  exec wordPair s = Some (m, caps) ->
  exists w1 ws w2,
    wordPairAt s = Some (w1, ws, w2) /\ m = w1 ++ ws ++ w2 /\
    breakLine rand m caps n =
      (if lessThan (rand n) (1 # 10) then w1 ++ [LF] ++ w2 else w1 ++ ws ++ w2, S n).
Proof.
  rewrite exec_wordPair.
  destruct (wordPairAt s) as [[[w1 ws] w2]|]; [|done].
  intros [= <- <-]. exists w1, ws, w2. split; [done|]. split; [done|].
  unfold breakLine, bind, Math_random, ret. simpl.
  by destruct (lessThan (rand n) (1 # 10)).
Qed.

Lemma wordPairAt_runs s w1 ws w2 :
  wordPairAt s = Some (w1, ws, w2) ->
  s = w1 ++ ws ++ w2 ++ drop (length (w1 ++ ws ++ w2)) s /\
  w1 <> [] /\ ws <> [] /\ w2 <> [] /\
  Forall (fun c => isWord c = true) w1 /\
  Forall (fun c => isSpace c = true) ws /\
  Forall (fun c => isWord c = true) w2.
Proof.
  unfold wordPairAt.
  pose proof (prefixOf_afterPrefix isWord s) as H1.
  pose proof (prefixOf_afterPrefix isSpace (afterPrefix isWord s)) as H2.
  pose proof (prefixOf_afterPrefix isWord (afterPrefix isSpace (afterPrefix isWord s))) as H3.
  pose proof (prefixOf_Forall isWord s) as F1.
  pose proof (prefixOf_Forall isSpace (afterPrefix isWord s)) as F2.
  pose proof (prefixOf_Forall isWord (afterPrefix isSpace (afterPrefix isWord s))) as F3.
  destruct (prefixOf isWord s) as [|a v1]; [done|].
  destruct (prefixOf isSpace (afterPrefix isWord s)) as [|b vs]; [done|].
  destruct (prefixOf isWord (afterPrefix isSpace (afterPrefix isWord s))) as [|d v2]; [done|].
  intros [= <- <- <-]. repeat split; try done.
  rewrite <- H1 at 1 2. rewrite <- H2 at 1 2. rewrite <- H3 at 1 2.
  rewrite !app_assoc. rewrite drop_app_length. done.
Qed.

Lemma removeSpaces_match s m caps n :
  exec spaces s = Some (m, caps) ->
  Forall (fun c => isSpace c = true) m /\
  removeSpaces rand m caps n = (if lessThan (rand n) (15 # 100) then [] else m, S n).
Proof.
  rewrite exec_spaces. pose proof (prefixOf_Forall isSpace s) as F.
  destruct (prefixOf isSpace s) as [|c m']; [done|].
  intros [= <- <-]. split; [done|].
  unfold removeSpaces, bind, Math_random, ret.
  by destruct (lessThan (rand n) (15 # 100)).
Qed.

Lemma addSpace_match m caps n :
  addSpace rand m caps n = (if lessThan (rand n) (8 # 100) then m ++ [SPACE] else m, S n).
Proof.
  unfold addSpace, bind, Math_random, ret.
  by destruct (lessThan (rand n) (8 # 100)).
Qed.

(** Each step keeps the text that is not whitespace. *)
Lemma breakLine_strip s n :
  stripSpaces (replace wordPair (breakLine rand) s n).1 = stripSpaces s.
Proof.
  apply (replace_rel (fun a b => stripSpaces b = stripSpaces a)); clear s n.
  - done.
  - intros c a a' H. simpl. by rewrite H.
  - intros m rep a a' H1 H2. by rewrite !stripSpaces_app, H1, H2.
  - intros s m caps n E.
    destruct (breakLine_match _ _ _ n E) as (w1 & ws & w2 & Hp & -> & ->).
    destruct (wordPairAt_runs _ _ _ _ Hp) as (_ & _ & _ & _ & _ & Hws & _).
    simpl. destruct (lessThan (rand n) (1 # 10)); [|done].
    rewrite !stripSpaces_app, (stripSpaces_run ws Hws). done.
Qed.

Lemma removeSpaces_strip s n :
  stripSpaces (replace spaces (removeSpaces rand) s n).1 = stripSpaces s.
Proof.
  apply (replace_rel (fun a b => stripSpaces b = stripSpaces a)); clear s n.
  - done.
  - intros c a a' H. simpl. by rewrite H.
  - intros m rep a a' H1 H2. by rewrite !stripSpaces_app, H1, H2.
  - intros s m caps n E.
    destruct (removeSpaces_match _ _ _ n E) as (Hm & ->).
    simpl. destruct (lessThan (rand n) (15 # 100)); [|done].
    by rewrite (stripSpaces_run m Hm).
Qed.

Lemma addSpace_strip s n :
  stripSpaces (replace wordChar (addSpace rand) s n).1 = stripSpaces s.
Proof.
  apply (replace_rel (fun a b => stripSpaces b = stripSpaces a)); clear s n.
  - done.
  - intros c a a' H. simpl. by rewrite H.
  - intros m rep a a' H1 H2. by rewrite !stripSpaces_app, H1, H2.
  - intros s m caps n _. rewrite addSpace_match. simpl.
    destruct (lessThan (rand n) (8 # 100)); [|done].
    rewrite stripSpaces_app. simpl. by rewrite app_nil_r.
Qed.

End FormattingPassFacts.

(** One run of the three steps: the pair is broken, the three whitespace
    runs are deleted, and each of the five word characters gets a space. *)
Example formatting_all_low :
  addOCRFormattingIssues low (lit "ab  cd e !") 0%nat = (lit "a b c d e !", 9%nat).
Proof. vm_compute. reflexivity. Qed.

Example wordPair_backtracks_to_nothing :
  exec wordPair (lit "ab  !cd") = None /\
  exec wordPair (lit "ab  cd e") = Some (lit "ab  cd", [lit "ab"; lit "cd"]).
Proof. vm_compute. done. Qed.

(** C10. Whatever the draws, the formatting pass changes whitespace only:
    the output without its whitespace is the input without its whitespace. *)
Theorem C10_formatting_pass_whitespace_frame (rand : nat -> Q) (text : list N) (n : nat) :
  stripSpaces (addOCRFormattingIssues rand text n).1 = stripSpaces text.
Proof.
  rewrite addOCRFormattingIssues_steps.
  pose proof (breakLine_strip rand text n) as H1.
  destruct (replace wordPair (breakLine rand) text n) as [r1 n1].
  pose proof (removeSpaces_strip rand r1 n1) as H2.
  destruct (replace spaces (removeSpaces rand) r1 n1) as [r2 n2].
  rewrite addSpace_strip. simpl in *. congruence.
Qed.

(** *** Which units the formatting pass can add *)

Lemma addsOnly_refl a : addsOnlyBreaksAndSpaces a a.
Proof. intros x Hx. by left. Qed.

Lemma addsOnly_trans a b c :
  addsOnlyBreaksAndSpaces a b -> addsOnlyBreaksAndSpaces b c ->
  addsOnlyBreaksAndSpaces a c.
Proof.
  intros Hab Hbc x Hx. destruct (Hbc x Hx) as [Hb|Hb]; [|by right].
  by apply Hab.
Qed.

Lemma addsOnly_replace r f s n :
  (forall s m caps n, exec r s = Some (m, caps) ->
     addsOnlyBreaksAndSpaces m (f m caps n).1) ->
  addsOnlyBreaksAndSpaces s (replace r f s n).1.
Proof.
  intros Hmatch. apply (replace_rel addsOnlyBreaksAndSpaces); [| | |done].
  - apply addsOnly_refl.
  - intros c a a' H x. rewrite !elem_of_cons. intros [->|Hx]; [by left; left|].
    destruct (H x Hx) as [?|?]; [by left; right | by right].
  - intros m rep a a' H1 H2 x. rewrite !elem_of_app. intros [Hx|Hx].
    + destruct (H1 x Hx) as [?|?]; [by left; left | by right].
    + destruct (H2 x Hx) as [?|?]; [by left; right | by right].
Qed.

(** C5, as stated, fails: the first draw turns the space of "a b" into a
    line break, which is neither a unit of the input nor a space. *)
Lemma C5_line_break_is_new :
  (addOCRFormattingIssues firstLow (lit "a b") 0%nat).1 = lit "a" ++ [LF] ++ lit "b" /\
  LF ∈ (addOCRFormattingIssues firstLow (lit "a b") 0%nat).1 /\
  ~ (LF ∈ lit "a b" \/ LF = SPACE).
Proof.
  split; [vm_compute; reflexivity|]. split.
  - vm_compute. apply list_elem_of_further, list_elem_of_here.
  - intros [H|H]; [|discriminate].
    change (lit "a b") with [97; 32; 98] in H.
    rewrite !elem_of_cons, elem_of_nil in H.
    destruct H as [H|[H|[H|[]]]]; discriminate.
Qed.

(** C5, amended. Every unit of the output of the formatting pass is a unit
    of its input, or a space, or a line break: the pass brings back nothing
    that the character-level pass removed, and what it adds is one of these
    two whitespace units. *)
Theorem C5_formatting_pass_adds_breaks_and_spaces_only
    (rand : nat -> Q) (text : list N) (n : nat) (x : N) :
  x ∈ (addOCRFormattingIssues rand text n).1 -> x ∈ text \/ x = SPACE \/ x = LF.
Proof.
  revert x. change (addsOnlyBreaksAndSpaces text (addOCRFormattingIssues rand text n).1).
  rewrite addOCRFormattingIssues_steps.
  assert (H1 : addsOnlyBreaksAndSpaces text (replace wordPair (breakLine rand) text n).1).
  { apply addsOnly_replace. clear. intros s m caps n E.
    destruct (breakLine_match rand _ _ _ n E) as (w1 & ws & w2 & _ & -> & ->).
    simpl. destruct (lessThan (rand n) (1 # 10)); [|apply addsOnly_refl].
    intros x. rewrite !elem_of_app, !elem_of_cons.
    intros [?|[->|?]]; [left; by left | right; by right | left; right; by right]. }
  destruct (replace wordPair (breakLine rand) text n) as [r1 n1].
  assert (H2 : addsOnlyBreaksAndSpaces r1 (replace spaces (removeSpaces rand) r1 n1).1).
  { apply addsOnly_replace. clear. intros s m caps n E.
    destruct (removeSpaces_match rand _ _ _ n E) as (_ & ->).
    simpl. destruct (lessThan (rand n) (15 # 100)); [|apply addsOnly_refl].
    intros x Hx. by apply elem_of_nil in Hx. }
  destruct (replace spaces (removeSpaces rand) r1 n1) as [r2 n2].
  assert (H3 : addsOnlyBreaksAndSpaces r2 (replace wordChar (addSpace rand) r2 n2).1).
  { apply addsOnly_replace. clear. intros s m caps n _.
    rewrite addSpace_match. simpl.
    destruct (lessThan (rand n) (8 # 100)); [|apply addsOnly_refl].
    intros x. rewrite elem_of_app, list_elem_of_singleton.
    intros [?| ->]; [by left | right; by left]. }
  simpl in *. eauto using addsOnly_trans.
Qed.

Lemma C5_formatting_pass_adds_breaks_and_spaces_only_witness :
  LF ∈ (addOCRFormattingIssues firstLow (lit "a b") 0%nat).1 /\
  (LF ∈ lit "a b" \/ LF = SPACE \/ LF = LF).
Proof.
  assert (H : LF ∈ (addOCRFormattingIssues firstLow (lit "a b") 0%nat).1).
  { vm_compute. apply list_elem_of_further, list_elem_of_here. }
  split; [exact H|].
  exact (C5_formatting_pass_adds_breaks_and_spaces_only firstLow (lit "a b") 0%nat LF H).
Defined.

(** *** Space insertion *)

Lemma addSpace_replace rand s n :
  replace wordChar (addSpace rand) s n = spaceAfterWordChars rand s n.
Proof.
  revert n. induction s as [|c s IH]; intros n; rewrite replace_step; [done|].
  rewrite exec_wordChar. simpl. destruct (isWord c).
  - rewrite addSpace_match. simpl drop. rewrite drop_0, IH.
    destruct (spaceAfterWordChars rand s (S n)) as [out n'].
    by destruct (lessThan (rand n) (8 # 100)).
  - rewrite IH. by destruct (spaceAfterWordChars rand s n).
Qed.

(** C7, as stated, fails: with every draw at 0 a character that is looked
    at gets its space, yet "!" comes back alone and no draw is made; under no
    stream does "!" get a space. *)
Lemma C7_no_space_after_non_word :
  lessThan (low 0%nat) (8 # 100) = true /\
  replace wordChar (addSpace low) (lit "!") 0%nat = (lit "!", 0%nat) /\
  ~ (exists rand n, (replace wordChar (addSpace rand) (lit "!") n).1 = lit "! ").
Proof.
  split; [done|]. split; [done|].
  intros (rand & n & H). rewrite addSpace_replace in H. discriminate.
Qed.

(** C7, amended. The third step looks at the word characters only (letters,
    digits and the underscore): for each of them, from left to right, one
    draw is made and a draw below 0.08 appends one space right after it; every
    other unit is copied as it is, without a draw. *)
Theorem C7_space_insertion_after_word_characters (rand : nat -> Q) (s : list N) (n : nat) :
  replace wordChar (addSpace rand) s n = spaceAfterWordChars rand s n.
Proof. apply addSpace_replace. Qed.

(** *** Spurious line breaks *)

Lemma prefixOf_stop p s : (forall c s', s = c :: s' -> p c = false) -> prefixOf p s = [].
Proof. destruct s as [|c s]; [done|]. intros H. simpl. by rewrite (H c s). Qed.

Lemma afterPrefix_stop p s : (forall c s', s = c :: s' -> p c = false) -> afterPrefix p s = s.
Proof. destruct s as [|c s]; [done|]. intros H. simpl. by rewrite (H c s). Qed.

Lemma wordPairAt_intro w1 ws w2 rest :
  w1 <> [] -> Forall (fun c => isWord c = true) w1 ->
  ws <> [] -> Forall (fun c => isSpace c = true) ws ->
  w2 <> [] -> Forall (fun c => isWord c = true) w2 ->
  (forall c rest', rest = c :: rest' -> isWord c = false) ->
  wordPairAt (w1 ++ ws ++ w2 ++ rest) = Some (w1, ws, w2).
Proof.
  intros N1 F1 Ns Fs N2 F2 Hrest. unfold wordPairAt.
  assert (Hws : forall c s', ws ++ w2 ++ rest = c :: s' -> isWord c = false).
  { destruct Fs as [|b ws' Hb _]; [done|]. intros c s' [= <- _]. by apply isSpace_not_word. }
  assert (Hw2 : forall c s', w2 ++ rest = c :: s' -> isSpace c = false).
  { destruct F2 as [|b w2' Hb _]; [done|]. intros c s' [= <- _]. by apply isWord_not_space. }
  rewrite (prefixOf_app isWord w1), (afterPrefix_app isWord w1) by done.
  rewrite (prefixOf_stop isWord _ Hws), (afterPrefix_stop isWord _ Hws), app_nil_r.
  rewrite (prefixOf_app isSpace ws), (afterPrefix_app isSpace ws) by done.
  rewrite (prefixOf_stop isSpace _ Hw2), (afterPrefix_stop isSpace _ Hw2), app_nil_r.
  rewrite (prefixOf_app isWord w2) by done.
  rewrite (prefixOf_stop isWord _ Hrest), app_nil_r.
  destruct w1; [done|]. destruct ws; [done|]. by destruct w2.
Qed.

Lemma breakLine_replace_pair rand s n w1 ws w2 :
  wordPairAt s = Some (w1, ws, w2) ->
  replace wordPair (breakLine rand) s n =
  let (out, n') :=
    replace wordPair (breakLine rand) (drop (length (w1 ++ ws ++ w2)) s) (S n) in
  ((if lessThan (rand n) (1 # 10) then w1 ++ [LF] ++ w2 else w1 ++ ws ++ w2) ++ out, n').
Proof.
  intros Hp. rewrite replace_step.
  destruct (wordPairAt_runs _ _ _ _ Hp) as (Hs & N1 & _).
  destruct s as [|c s]; [by destruct w1|].
  destruct (exec wordPair (c :: s)) as [[m caps]|] eqn:E.
  - destruct (breakLine_match rand _ _ _ n E) as (v1 & vs & v2 & Hp' & -> & ->).
    rewrite Hp in Hp'. by injection Hp' as <- <- <-.
  - rewrite exec_wordPair, Hp in E. discriminate.
Qed.

Lemma breakLine_replace_other rand c s n :
  wordPairAt (c :: s) = None ->
  replace wordPair (breakLine rand) (c :: s) n =
  let (out, n') := replace wordPair (breakLine rand) s n in (c :: out, n').
Proof. intros Hp. rewrite replace_step, exec_wordPair, Hp. done. Qed.

(** C6, as stated, fails: with every draw at 0 each pair that is looked at
    is broken, yet in "a b c" only the space between "a" and "b" becomes a
    line break; under no stream does a line break come between "b" and "c". *)
Lemma C6_second_word_not_paired_again :
  lessThan (low 0%nat) (1 # 10) = true /\
  replace wordPair (breakLine low) (lit "a b c") 0%nat = (lit "a" ++ [LF] ++ lit "b c", 1%nat) /\
  ~ (exists rand n out,
       (replace wordPair (breakLine rand) (lit "a b c") n).1 = out ++ lit "b" ++ [LF] ++ lit "c").
Proof.
  split; [done|]. split; [vm_compute; reflexivity|].
  intros (rand & n & out & H).
  rewrite (breakLine_replace_pair rand _ n (lit "a") (lit " ") (lit "b")) in H by done.
  change (drop _ _) with [32; 99] in H.
  rewrite breakLine_replace_other in H by done.
  rewrite breakLine_replace_other in H by done.
  rewrite replace_step in H.
  destruct (lessThan (rand n) (1 # 10)); simpl in H;
    do 6 (destruct out as [|? out]; [discriminate H|]); discriminate H.
Qed.

(** C6, amended. The first step scans the text from left to right.  Where
    the scan stands on a word run, a whitespace run and a word run, one draw
    is made: below 0.10 the whitespace run becomes one line break, otherwise
    the three runs are copied; the scan goes on after the second word, which
    is therefore never the first word of a pair.  Anywhere else the unit under
    the scan is copied and the scan moves by one unit. *)
Theorem C6_line_breaks_between_scanned_pairs (rand : nat -> Q) (n : nat) :
  replace wordPair (breakLine rand) [] n = ([], n) /\
  (forall w1 ws w2 rest,
     w1 <> [] -> Forall (fun c => isWord c = true) w1 ->
     ws <> [] -> Forall (fun c => isSpace c = true) ws ->
     w2 <> [] -> Forall (fun c => isWord c = true) w2 ->
     (forall c rest', rest = c :: rest' -> isWord c = false) ->
     replace wordPair (breakLine rand) (w1 ++ ws ++ w2 ++ rest) n =
     let (out, n') := replace wordPair (breakLine rand) rest (S n) in
     ((if lessThan (rand n) (1 # 10) then w1 ++ [LF] ++ w2 else w1 ++ ws ++ w2) ++ out, n')) /\
  (forall c s,
     wordPairAt (c :: s) = None ->
     replace wordPair (breakLine rand) (c :: s) n =
     let (out, n') := replace wordPair (breakLine rand) s n in (c :: out, n')).
Proof.
  split; [done|]. split.
  - intros w1 ws w2 rest N1 F1 Ns Fs N2 F2 Hrest.
    rewrite (breakLine_replace_pair rand _ n w1 ws w2) by by apply wordPairAt_intro.
    replace (w1 ++ ws ++ w2 ++ rest) with ((w1 ++ ws ++ w2) ++ rest)
      by (by rewrite <- !app_assoc).
    by rewrite drop_app_length.
  - intros c s Hp. by apply breakLine_replace_other.
Qed.

Lemma C6_line_breaks_between_scanned_pairs_witness :
  replace wordPair (breakLine low) (lit "a" ++ lit " " ++ lit "b" ++ lit " c") 0%nat =
    (let (out, n') := replace wordPair (breakLine low) (lit " c") 1%nat in
     ((if lessThan (low 0%nat) (1 # 10) then lit "a" ++ [LF] ++ lit "b"
       else lit "a" ++ lit " " ++ lit "b") ++ out, n')) /\
  replace wordPair (breakLine low) (32 :: lit "c") 0%nat =
    (let (out, n') := replace wordPair (breakLine low) (lit "c") 0%nat in (32 :: out, n')).
Proof.
  destruct (C6_line_breaks_between_scanned_pairs low 0%nat) as (_ & Hpair & Hother).
  split.
  - apply (Hpair (lit "a") (lit " ") (lit "b") (lit " c")).
    + discriminate.
    + repeat constructor.
    + discriminate.
    + repeat constructor.
    + discriminate.
    + repeat constructor.
    + intros c rest' [= <- _]. reflexivity.
  - apply (Hother 32 (lit "c")). vm_compute. reflexivity.
Defined.

(** ** Determinism *)

Section SameDraws.

Variables rand1 rand2 : nat -> Q.
Hypothesis same : forall i, rand1 i = rand2 i.

Lemma emission_same c n : emission rand1 c n = emission rand2 c n.
Proof. unfold emission. by rewrite !same. Qed.

Lemma emissions_same text n : emissions rand1 text n = emissions rand2 text n.
Proof.
  revert n. induction text as [|c text IH]; intros n; simpl; [done|].
  rewrite emission_same. destruct (emission rand2 c n) as [e n1]. by rewrite IH.
Qed.

Lemma replace_from_same r f1 f2 s k n :
  (forall m caps n, f1 m caps n = f2 m caps n) ->
  replace_from r f1 s k n = replace_from r f2 s k n.
Proof.
  intros Hf. revert k n. induction s as [|c s IH]; intros k n; simpl.
  - destruct k; [|done]. destruct (exec r []) as [[m caps]|]; [apply Hf | done].
  - destruct k as [|k]; [|apply IH].
    destruct (exec r (c :: s)) as [[m caps]|].
    + destruct m as [|c' m']; unfold bind; rewrite Hf;
        destruct (f2 _ caps n) as [rep n1]; by rewrite IH.
    + unfold bind. by rewrite IH.
Qed.

Lemma addOCRFormattingIssues_same text n :
  addOCRFormattingIssues rand1 text n = addOCRFormattingIssues rand2 text n.
Proof.
  rewrite !addOCRFormattingIssues_steps. unfold replace.
  rewrite (replace_from_same wordPair (breakLine rand1) (breakLine rand2)).
  2:{ intros m caps k. unfold breakLine, bind, Math_random. by rewrite same. }
  destruct (replace_from wordPair (breakLine rand2) text 0 n) as [r1 n1].
  rewrite (replace_from_same spaces (removeSpaces rand1) (removeSpaces rand2)).
  2:{ intros m caps k. unfold removeSpaces, bind, Math_random. by rewrite same. }
  destruct (replace_from spaces (removeSpaces rand2) r1 0 n1) as [r2 n2].
  apply replace_from_same.
  intros m caps k. unfold addSpace, bind, Math_random. by rewrite same.
Qed.

End SameDraws.

(** C9. Two runs on the same input, from the same position of two streams
    that give the same draws, return the same string and stop at the same
    position, for the character-level pass and for the formatting pass. *)
Theorem C9_same_draws_same_output (rand1 rand2 : nat -> Q) (text : list N) (n : nat) :
  (forall i, rand1 i = rand2 i) ->
  introduceRealisticOCRErrors rand1 text n = introduceRealisticOCRErrors rand2 text n /\
  addOCRFormattingIssues rand1 text n = addOCRFormattingIssues rand2 text n.
Proof.
  intros same. split.
  - rewrite !introduceRealisticOCRErrors_emissions. by apply emissions_same.
  - by apply addOCRFormattingIssues_same.
Qed.

Lemma C9_same_draws_same_output_witness :
  introduceRealisticOCRErrors firstLow (lit "Take 1 tablet") 0%nat =
    introduceRealisticOCRErrors firstLow' (lit "Take 1 tablet") 0%nat /\
  addOCRFormattingIssues firstLow (lit "Take 1 tablet") 0%nat =
    addOCRFormattingIssues firstLow' (lit "Take 1 tablet") 0%nat.
Proof.
  apply (C9_same_draws_same_output firstLow firstLow' (lit "Take 1 tablet") 0%nat).
  intros [|i]; reflexivity.
Defined.

(** ** The post-processing of the parsed response *)

Section HandlerFacts.

Variable rand : nat -> Q.

Lemma corruptIfTruthy_charPassOnly v k : charPassOnly rand v (corruptIfTruthy rand v k).1.
Proof.
  destruct v as [| |[|c s]]; try done.
  exists k. unfold corruptIfTruthy, bind, ret. cbn [truthy].
  by destruct (introduceRealisticOCRErrors rand (c :: s) k).
Qed.

Lemma corruptIfTruthy_falsy v k : keptIfFalsy v (corruptIfTruthy rand v k).1.
Proof. intros Hv. by destruct v as [| |[|c s]]. Qed.

Lemma mapM_Forall2 {A B} (P : A -> B -> Prop) (f : A -> M B) l :
  (forall a k, P a (f a k).1) -> forall k, Forall2 P l (mapM f l k).1.
Proof.
  intros Hf. induction l as [|a l IH]; intros k; simpl; [constructor|].
  unfold bind, ret. specialize (Hf a k). destruct (f a k) as [b k1].
  specialize (IH k1). destruct (mapM f l k1) as [bs k2]. by constructor.
Qed.

(** The five fields of a medication, each through [corruptIfTruthy]. *)
Lemma corruptMedication_fields (P : value -> value -> Prop) med k :
  (forall v k, P v (corruptIfTruthy rand v k).1) ->
  fieldwise P med (corruptMedication rand med k).1.
Proof.
  intros HP. unfold fieldwise, corruptMedication, bind, ret.
  pose proof (HP (name med) k) as H1.
  destruct (corruptIfTruthy rand (name med) k) as [v1 k1].
  pose proof (HP (dosage med) k1) as H2.
  destruct (corruptIfTruthy rand (dosage med) k1) as [v2 k2].
  pose proof (HP (frequency med) k2) as H3.
  destruct (corruptIfTruthy rand (frequency med) k2) as [v3 k3].
  pose proof (HP (duration med) k3) as H4.
  destruct (corruptIfTruthy rand (duration med) k3) as [v4 k4].
  pose proof (HP (instructions med) k4) as H5.
  destruct (corruptIfTruthy rand (instructions med) k4) as [v5 k5].
  done.
Qed.

(** The record built on a validated response, field by field. *)
Lemma applyOCRErrors_fields (P : value -> value -> Prop) txt meds parsedData n :
  (forall v k, P v (corruptIfTruthy rand v k).1) ->
  let out := (applyOCRErrors rand txt meds parsedData n).1 in
  text out = Str (let (t1, n1) := introduceRealisticOCRErrors rand txt n in
                  (addOCRFormattingIssues rand t1 n1).1) /\
  (exists meds', medications out = Some meds' /\ Forall2 (fieldwise P) meds meds') /\
  P (doctorName parsedData) (doctorName out) /\
  prescriptionDate out = prescriptionDate parsedData.
Proof.
  intros HP. unfold applyOCRErrors, bind, ret.
  destruct (introduceRealisticOCRErrors rand txt n) as [t1 n1].
  destruct (addOCRFormattingIssues rand t1 n1) as [t2 n2].
  pose proof (mapM_Forall2 (fieldwise P) (corruptMedication rand) meds
                (fun med k => corruptMedication_fields P med k HP) n2) as Hmeds.
  destruct (mapM (corruptMedication rand) meds n2) as [meds' n3].
  pose proof (HP (doctorName parsedData) n3) as Hdoc.
  destruct (corruptIfTruthy rand (doctorName parsedData) n3) as [doc n4].
  simpl. split; [done|]. split; [by exists meds'|]. done.
Qed.

End HandlerFacts.

(** C2, as stated, fails: a parsed response whose text is the empty string
    does not pass the validation of the handler, which answers with the
    fallback record; the medication and the doctor name are gone instead of
    going through the character-level pass. *)
Lemma C2_empty_text_falls_back :
  (respond high (Some emptyTextParsed) emptyTextReply 0%nat).1 =
    {| text := Str emptyTextReply; medications := Some [];
       doctorName := Str []; prescriptionDate := Str [] |} /\
  ~ orchestrated high emptyTextParsed
      (respond high (Some emptyTextParsed) emptyTextReply 0%nat).1.
Proof.
  assert (H : (respond high (Some emptyTextParsed) emptyTextReply 0%nat).1 =
    {| text := Str emptyTextReply; medications := Some [];
       doctorName := Str []; prescriptionDate := Str [] |}).
  { vm_compute. reflexivity. }
  split; [exact H|]. rewrite H.
  intros (_ & (meds & meds' & Hm & Hm' & Hall) & _).
  simpl in Hm, Hm'. injection Hm as <-. injection Hm' as <-.
  inversion Hall.
Qed.

(** C2, amended. When the parsed response passes the validation of the
    handler (its text is a non-empty string and its medications are an
    array), the text gets the character-level pass and then the formatting
    pass, and each medication field and the doctor name get the character-
    level pass alone when they are non-empty strings and are kept otherwise. *)
Theorem C2_validated_response_is_orchestrated
    (rand : nat -> Q) (parsedData : ParsedData) (extractedText : list N) (n : nat)
    (c : N) (t : list N) (meds : list Medication) :
  text parsedData = Str (c :: t) ->
  medications parsedData = Some meds ->
  orchestrated rand parsedData (respond rand (Some parsedData) extractedText n).1.
Proof.
  intros Ht Hm. unfold respond. rewrite Ht, Hm.
  destruct (applyOCRErrors_fields rand (charPassOnly rand) (c :: t) meds parsedData n
              (corruptIfTruthy_charPassOnly rand)) as (Htext & (meds' & Hm' & Hall) & Hdoc & _).
  split; [|split].
  - by exists (c :: t), n.
  - by exists meds, meds'.
  - done.
Qed.

Lemma C2_validated_response_is_orchestrated_witness :
  orchestrated firstLow tabletParsed
    (respond firstLow (Some tabletParsed) (lit "reply") 0%nat).1.
Proof.
  apply (C2_validated_response_is_orchestrated firstLow tabletParsed (lit "reply") 0%nat
           84 (lit "ake 1 tablet twice daily") [aspirin]); reflexivity.
Defined.

(** C4, as stated, fails: a parsed response whose text is the empty string
    does not pass the validation of the handler, which answers with the
    fallback record; the prescription date is blanked, the empty text comes
    back as the noisy raw reply, and the medication with its null and empty
    fields is gone. *)
Lemma C4_empty_text_loses_date_and_fields :
  let out := (respond high (Some emptyTextParsed) emptyTextReply 0%nat).1 in
  text emptyTextParsed = Str [] /\
  prescriptionDate emptyTextParsed = Str (lit "2024-01-01") /\
  prescriptionDate out = Str [] /\
  prescriptionDate out <> prescriptionDate emptyTextParsed /\
  text out = Str emptyTextReply /\
  text out <> text emptyTextParsed /\
  medications out = Some [].
Proof.
  assert (H : (respond high (Some emptyTextParsed) emptyTextReply 0%nat).1 =
    {| text := Str emptyTextReply; medications := Some [];
       doctorName := Str []; prescriptionDate := Str [] |}).
  { vm_compute. reflexivity. }
  cbn zeta. rewrite H. cbn [text prescriptionDate medications emptyTextParsed].
  repeat split; try done; discriminate.
Qed.

(** C4, amended. When the parsed response passes the validation of the
    handler (its text is a non-empty string and its medications are an
    array), the answer has the prescription date of the response as it was,
    and every medication field and the doctor name that is empty, null or
    missing comes back as it is: null stays null and an empty string stays
    the empty string. *)
Theorem C4_validated_response_keeps_date_and_falsy_fields
    (rand : nat -> Q) (parsedData : ParsedData) (extractedText : list N) (n : nat)
    (c : N) (t : list N) (meds : list Medication) :
  text parsedData = Str (c :: t) ->
  medications parsedData = Some meds ->
  let out := (respond rand (Some parsedData) extractedText n).1 in
  prescriptionDate out = prescriptionDate parsedData /\
  (exists meds', medications out = Some meds' /\
     Forall2 (fieldwise keptIfFalsy) meds meds') /\
  keptIfFalsy (doctorName parsedData) (doctorName out).
Proof.
  intros Ht Hm. unfold respond. rewrite Ht, Hm.
  destruct (applyOCRErrors_fields rand keptIfFalsy (c :: t) meds parsedData n
              (corruptIfTruthy_falsy rand)) as (_ & Hmeds & Hdoc & Hdate).
  cbn zeta. split; [done|]. split; done.
Qed.

Lemma C4_validated_response_keeps_date_and_falsy_fields_witness :
  let out := (respond low (Some tabletParsed) (lit "reply") 0%nat).1 in
  prescriptionDate out = Str (lit "2024-01-01") /\
  exists med', medications out = Some [med'] /\
    dosage med' = Str [] /\ frequency med' = Null /\ duration med' = Undefined.
Proof.
  destruct (C4_validated_response_keeps_date_and_falsy_fields low tabletParsed
              (lit "reply") 0%nat 84 (lit "ake 1 tablet twice daily") [aspirin]
              eq_refl eq_refl)
    as (Hdate & (meds' & Hm & Hall) & _).
  split; [exact Hdate|].
  inversion Hall as [|med med' l l' (_ & Hd & Hf & Hu & _) Hl]; subst.
  inversion Hl; subst.
  exists med'. split; [exact Hm|].
  split; [by apply Hd|]. split; [by apply Hf | by apply Hu].
Defined.

(** * Further properties of the noise injector *)

(** ** Draws and characters of the character-level pass *)

Lemma lessThan_false x y : (y <= x)%Q -> lessThan x y = false.
Proof. intros H. unfold lessThan. apply negb_false_iff. by apply Qle_bool_iff. Qed.


Section CharacterPassMore.

Variable rand : nat -> Q.

Lemma emission_draws c n : (S n <= (emission rand c n).2 <= 3 + n)%nat.
Proof.
  unfold emission. destruct (lessThan (rand n) errorRate); [|simpl; lia].
  destruct (ocrErrors !! [c]); [simpl; lia|].
  destruct (lessThan (rand (S n)) (3 # 10)); [simpl; lia|].
  destruct (lessThan (rand (S (S n))) (2 # 10)); simpl; lia.
Qed.

Lemma emissions_draws text n :
  (n + length text <= (emissions rand text n).2 <= n + 3 * length text)%nat.
Proof.
  revert n. induction text as [|c text IH]; intros n; simpl; [lia|].
  pose proof (emission_draws c n) as Hc.
  destruct (emission rand c n) as [e n1]. simpl in Hc.
  specialize (IH n1). destruct (emissions rand text n1) as [out n2]. simpl in *. lia.
Qed.

Lemma emissions_no_error text n :
  (forall i, (errorRate <= rand i)%Q) ->
  emissions rand text n = (text, (n + length text)%nat).
Proof.
  intros Hr. revert n. induction text as [|c text IH]; intros n; simpl.
  - f_equal. lia.
  - unfold emission. rewrite (lessThan_false _ _ (Hr n)), IH. simpl.
    f_equal. lia.
Qed.

(** A unit of an emission is the character or its image in the table. *)
Lemma emission_units c n x :
  x ∈ (emission rand c n).1 -> x = c \/ ocrErrors !! [c] = Some [x].
Proof.
  unfold emission. destruct (lessThan (rand n) errorRate).
  - destruct (ocrErrors !! [c]) as [v|] eqn:E.
    + destruct (ocrErrors_entries _ _ E) as (a & b & _ & ->). cbn [fst].
      rewrite list_elem_of_singleton. intros ->. by right.
    + destruct (lessThan (rand (S n)) (3 # 10)); cbn [fst].
      * by intros ?%elem_of_nil.
      * destruct (lessThan (rand (S (S n))) (2 # 10)); cbn [fst];
          rewrite ?elem_of_cons, elem_of_nil; intros H; left; intuition.
  - cbn [fst]. rewrite list_elem_of_singleton. by left.
Qed.

Lemma emissions_units text n x :
  x ∈ (emissions rand text n).1 ->
  exists c, c ∈ text /\ (x = c \/ ocrErrors !! [c] = Some [x]).
Proof.
  revert n. induction text as [|c text IH]; intros n; cbn [emissions fst].
  - by intros ?%elem_of_nil.
  - pose proof (emission_units c n x) as Hc.
    destruct (emission rand c n) as [e n1]. specialize (IH n1).
    destruct (emissions rand text n1) as [out n2]. cbn [fst] in *.
    rewrite elem_of_app. intros [Hx|Hx].
    + exists c. split; [apply list_elem_of_here | by apply Hc].
    + destruct (IH Hx) as (c' & Hc' & H). exists c'.
      split; [by apply list_elem_of_further | done].
Qed.

(** With an entry for every character, each emission is one unit and one
    draw. *)
Lemma emissions_all_mapped text n :
  Forall (fun c => is_Some (ocrErrors !! [c])) text ->
  length (emissions rand text n).1 = length text /\
  (emissions rand text n).2 = (n + length text)%nat.
Proof.
  intros Hall. revert n. induction Hall as [|c text [v Hc] _ IH]; intros n.
  - simpl. split; [done | lia].
  - destruct (ocrErrors_entries _ _ Hc) as (a & b & _ & ->).
    cbn [emissions]. unfold emission. rewrite Hc. clear Hc.
    destruct (lessThan (rand n) errorRate);
      destruct (IH (S n)) as [IH1 IH2];
      destruct (emissions rand text (S n)) as [out n2]; simpl in *;
      (split; [congruence | lia]).
Qed.

End CharacterPassMore.

(** X1. On a text of N units the character-level pass calls [Math.random]
    at least N and at most 3N times. *)
Theorem X1_character_pass_draws (rand : nat -> Q) (text : list N) (n : nat) :
  (n + length text <= (introduceRealisticOCRErrors rand text n).2
   <= n + 3 * length text)%nat.
Proof. rewrite introduceRealisticOCRErrors_emissions. apply emissions_draws. Qed.

(** X2. When no draw is below the error rate, the character-level pass
    returns its text unchanged, after one draw per unit. *)
Theorem X2_character_pass_no_error (rand : nat -> Q) (text : list N) (n : nat) :
  (forall i, (errorRate <= rand i)%Q) ->
  introduceRealisticOCRErrors rand text n = (text, (n + length text)%nat).
Proof.
  intros Hr. rewrite introduceRealisticOCRErrors_emissions.
  by apply emissions_no_error.
Qed.

Lemma X2_character_pass_no_error_witness :
  introduceRealisticOCRErrors high (lit "Rx: Amoxicillin 500mg") 0%nat =
  (lit "Rx: Amoxicillin 500mg", (0 + length (lit "Rx: Amoxicillin 500mg"))%nat).
Proof.
  apply (X2_character_pass_no_error high (lit "Rx: Amoxicillin 500mg") 0%nat).
  intros i. unfold high, errorRate, Qle. simpl. lia.
Defined.

(** X3. The character-level pass invents nothing: every unit of its output
    is a unit of the input or the table image of a unit of the input. *)
Theorem X3_character_pass_units (rand : nat -> Q) (text : list N) (n : nat) (x : N) :
  x ∈ (introduceRealisticOCRErrors rand text n).1 ->
  exists c, c ∈ text /\ (x = c \/ ocrErrors !! [c] = Some [x]).
Proof. rewrite introduceRealisticOCRErrors_emissions. apply emissions_units. Qed.

Lemma X3_character_pass_units_witness :
  108 ∈ (introduceRealisticOCRErrors low (lit "a!1") 0%nat).1 /\
  exists c, c ∈ lit "a!1" /\ (108 = c \/ ocrErrors !! [c] = Some [108]).
Proof.
  assert (H : 108 ∈ (introduceRealisticOCRErrors low (lit "a!1") 0%nat).1).
  { vm_compute. apply list_elem_of_further, list_elem_of_here. }
  split; [exact H|].
  exact (X3_character_pass_units low (lit "a!1") 0%nat 108 H).
Defined.



(** X5. A text whose every character has a table entry keeps its length:
    no unit is dropped or doubled, and one draw is made per unit. *)
Theorem X5_character_pass_mapped_text (rand : nat -> Q) (text : list N) (n : nat) :
  Forall (fun c => is_Some (ocrErrors !! [c])) text ->
  length (introduceRealisticOCRErrors rand text n).1 = length text /\
  (introduceRealisticOCRErrors rand text n).2 = (n + length text)%nat.
Proof.
  intros Hall. rewrite introduceRealisticOCRErrors_emissions.
  by apply emissions_all_mapped.
Qed.

Lemma X5_character_pass_mapped_text_witness :
  length (introduceRealisticOCRErrors low (lit "S0B") 0%nat).1 = length (lit "S0B") /\
  (introduceRealisticOCRErrors low (lit "S0B") 0%nat).2 = (0 + length (lit "S0B"))%nat.
Proof.
  apply (X5_character_pass_mapped_text low (lit "S0B") 0%nat).
  repeat constructor; vm_compute; eauto.
Defined.

(** ** Length and draws of the formatting pass *)

Lemma wordCount_app a b : wordCount (a ++ b) = (wordCount a + wordCount b)%nat.
Proof. unfold wordCount. by rewrite List.filter_app, length_app. Qed.

Lemma wordCount_le s : (wordCount s <= length s)%nat.
Proof. apply List.filter_length_le. Qed.

Lemma wordCount_spaces ws : Forall (fun c => isSpace c = true) ws -> wordCount ws = 0%nat.
Proof.
  unfold wordCount. induction 1 as [|c ws Hc _ IH]; simpl; [done|].
  by rewrite (isSpace_not_word _ Hc).
Qed.

(** A step that makes one draw per match makes at most one draw per unit. *)
Lemma replace_draws_bounded r f k :
  (forall m caps n, (f m caps n).2 = S n) ->
  forall s n, (length s <= k)%nat ->
    (n <= (replace r f s n).2 <= n + length s)%nat.
Proof.
  intros Hf. induction k as [|k IH]; intros s n Hk.
  - destruct s; [|simpl in Hk; lia]. rewrite replace_step. simpl. lia.
  - rewrite replace_step. destruct s as [|c s]; [simpl; lia|].
    destruct (exec r (c :: s)) as [[m caps]|] eqn:E.
    + destruct (exec_prefix _ _ _ _ E) as (c' & m' & -> & Hs).
      pose proof (Hf (c' :: m') caps n) as Hn.
      destruct (f (c' :: m') caps n) as [rep n1]. simpl in Hn. subst n1.
      assert (Hlen : (length (drop (length (c' :: m')) (c :: s)) <= k)%nat).
      { rewrite length_drop. simpl in *. lia. }
      specialize (IH _ (S n) Hlen). rewrite length_drop in IH.
      destruct (replace r f (drop (length (c' :: m')) (c :: s)) (S n)) as [out n2].
      simpl in *. lia.
    + assert (Hlen : (length s <= k)%nat) by (simpl in Hk; lia).
      specialize (IH s n Hlen). destruct (replace r f s n) as [out n1].
      simpl in *. lia.
Qed.

Section FormattingPassMore.

Variable rand : nat -> Q.

(** The first two steps never lengthen the text and keep its word
    characters. *)
Lemma breakLine_length s n :
  let out := (replace wordPair (breakLine rand) s n).1 in
  (length out <= length s)%nat /\ wordCount out = wordCount s.
Proof.
  apply (replace_rel (fun a b => (length b <= length a)%nat /\ wordCount b = wordCount a));
    clear s n.
  - done.
  - intros c a a' [H1 H2]. unfold wordCount in *. simpl.
    destruct (isWord c); simpl; split; lia.
  - intros m rep a a' [H1 H2] [H3 H4]. rewrite !length_app, !wordCount_app. lia.
  - intros s m caps n E.
    destruct (breakLine_match rand _ _ _ n E) as (w1 & ws & w2 & Hp & -> & ->).
    destruct (wordPairAt_runs _ _ _ _ Hp) as (_ & _ & Hne & _ & _ & Hws & _).
    cbn [fst]. destruct (lessThan (rand n) (1 # 10)); [|done].
    rewrite !length_app, !wordCount_app, (wordCount_spaces ws Hws).
    destruct ws; [done|]. simpl. split; [lia | done].
Qed.

Lemma removeSpaces_length s n :
  let out := (replace spaces (removeSpaces rand) s n).1 in
  (length out <= length s)%nat /\ wordCount out = wordCount s.
Proof.
  apply (replace_rel (fun a b => (length b <= length a)%nat /\ wordCount b = wordCount a));
    clear s n.
  - done.
  - intros c a a' [H1 H2]. unfold wordCount in *. simpl.
    destruct (isWord c); simpl; split; lia.
  - intros m rep a a' [H1 H2] [H3 H4]. rewrite !length_app, !wordCount_app. lia.
  - intros s m caps n E.
    destruct (removeSpaces_match rand _ _ _ n E) as (Hm & ->).
    cbn [fst]. destruct (lessThan (rand n) (15 # 100)); [|done].
    rewrite (wordCount_spaces m Hm). simpl. split; [lia | done].
Qed.

(** The third step adds at most one unit per word character. *)
Lemma addSpace_length s n :
  (length (replace wordChar (addSpace rand) s n).1 <= length s + wordCount s)%nat.
Proof.
  apply (replace_rel (fun a b => (length b <= length a + wordCount a)%nat)); clear s n.
  - done.
  - intros c a a' H. unfold wordCount in *. simpl.
    destruct (isWord c); simpl; lia.
  - intros m rep a a' H1 H2. rewrite !length_app, !wordCount_app. lia.
  - intros s m caps n E. rewrite addSpace_match. cbn [fst].
    rewrite exec_wordChar in E. destruct s as [|c s]; [done|].
    destruct (isWord c) eqn:Hc; [|done]. injection E as <- _.
    unfold wordCount. simpl. rewrite Hc.
    destruct (lessThan (rand n) (8 # 100)); simpl; lia.
Qed.

End FormattingPassMore.

Lemma addOCRFormattingIssues_length rand text n :
  (length (addOCRFormattingIssues rand text n).1 <= length text + wordCount text)%nat.
Proof.
  rewrite addOCRFormattingIssues_steps.
  pose proof (breakLine_length rand text n) as [H1 W1].
  destruct (replace wordPair (breakLine rand) text n) as [r1 n1].
  pose proof (removeSpaces_length rand r1 n1) as [H2 W2].
  destruct (replace spaces (removeSpaces rand) r1 n1) as [r2 n2].
  pose proof (addSpace_length rand r2 n2) as H3. simpl in *. lia.
Qed.

(** The two passes in a row, as the route applies them to a text. *)
Lemma both_passes_length rand text n :
  (length (let (t1, n1) := introduceRealisticOCRErrors rand text n in
           (addOCRFormattingIssues rand t1 n1).1) <= 4 * length text)%nat.
Proof.
  pose proof (pieces_length rand text n) as H1.
  rewrite <- emissions_pieces, <- introduceRealisticOCRErrors_emissions in H1.
  destruct (introduceRealisticOCRErrors rand text n) as [t1 n1].
  pose proof (addOCRFormattingIssues_length rand t1 n1) as H2.
  pose proof (wordCount_le t1). simpl in *. lia.
Qed.

(** X6. The formatting pass adds at most one unit per word character of
    its input, so it never more than doubles the text, and a text without
    word characters never grows. *)
Theorem X6_formatting_pass_length (rand : nat -> Q) (text : list N) (n : nat) :
  (length (addOCRFormattingIssues rand text n).1 <= length text + wordCount text)%nat /\
  (length (addOCRFormattingIssues rand text n).1 <= 2 * length text)%nat.
Proof.
  pose proof (addOCRFormattingIssues_length rand text n).
  pose proof (wordCount_le text). lia.
Qed.

(** X7. When no draw is below 0.15, the largest of the three rates, the
    formatting pass returns its text unchanged. *)
Theorem X7_formatting_pass_no_noise (rand : nat -> Q) (text : list N) (n : nat) :
  (forall i, (15 # 100 <= rand i)%Q) ->
  (addOCRFormattingIssues rand text n).1 = text.
Proof.
  intros Hr.
  assert (H10 : forall i, lessThan (rand i) (1 # 10) = false).
  { intros i. apply lessThan_false, (Qle_trans _ (15 # 100)); [|apply Hr].
    unfold Qle. simpl. lia. }
  assert (H15 : forall i, lessThan (rand i) (15 # 100) = false).
  { intros i. apply lessThan_false, Hr. }
  assert (H8 : forall i, lessThan (rand i) (8 # 100) = false).
  { intros i. apply lessThan_false, (Qle_trans _ (15 # 100)); [|apply Hr].
    unfold Qle. simpl. lia. }
  assert (Hid : forall r f, (forall s m caps k, exec r s = Some (m, caps) -> (f m caps k).1 = m) ->
                forall s k, (replace r f s k).1 = s).
  { intros r f Hf s k. apply (replace_rel (fun a b => b = a)); try done.
    - by intros c a a' ->.
    - by intros m rep a a' -> ->. }
  rewrite addOCRFormattingIssues_steps.
  pose proof (Hid wordPair (breakLine rand)) as E1.
  pose proof (Hid spaces (removeSpaces rand)) as E2.
  pose proof (Hid wordChar (addSpace rand)) as E3.
  specialize (E1 ltac:(intros s m caps k E;
    destruct (breakLine_match rand _ _ _ k E) as (w1 & ws & w2 & _ & -> & ->);
    by rewrite H10) text n).
  destruct (replace wordPair (breakLine rand) text n) as [r1 n1]. simpl in E1. subst r1.
  specialize (E2 ltac:(intros s m caps k E;
    destruct (removeSpaces_match rand _ _ _ k E) as (_ & ->);
    by rewrite H15) text n1).
  destruct (replace spaces (removeSpaces rand) text n1) as [r2 n2]. simpl in E2. subst r2.
  apply E3. intros s m caps k _. by rewrite addSpace_match, H8.
Qed.

Lemma X7_formatting_pass_no_noise_witness :
  (addOCRFormattingIssues high (lit "Take 1 tablet  twice daily") 0%nat).1 =
  lit "Take 1 tablet  twice daily".
Proof.
  apply (X7_formatting_pass_no_noise high (lit "Take 1 tablet  twice daily") 0%nat).
  intros i. unfold high, Qle. simpl. lia.
Defined.

(** X8. On a text of N units the formatting pass calls [Math.random] at
    most 3N times: each step makes one draw per match, and no step before the
    last lengthens the text. *)
Theorem X8_formatting_pass_draws (rand : nat -> Q) (text : list N) (n : nat) :
  (n <= (addOCRFormattingIssues rand text n).2 <= n + 3 * length text)%nat.
Proof.
  rewrite addOCRFormattingIssues_steps.
  pose proof (breakLine_length rand text n) as [L1 _].
  pose proof (replace_draws_bounded wordPair (breakLine rand) (length text)
    ltac:(intros m caps k; unfold breakLine, bind, Math_random, ret;
          by destruct (lessThan (rand k) (1 # 10))) text n ltac:(lia)) as D1.
  destruct (replace wordPair (breakLine rand) text n) as [r1 n1].
  pose proof (removeSpaces_length rand r1 n1) as [L2 _].
  pose proof (replace_draws_bounded spaces (removeSpaces rand) (length r1)
    ltac:(intros m caps k; unfold removeSpaces, bind, Math_random, ret;
          by destruct (lessThan (rand k) (15 # 100))) r1 n1 ltac:(lia)) as D2.
  destruct (replace spaces (removeSpaces rand) r1 n1) as [r2 n2].
  pose proof (replace_draws_bounded wordChar (addSpace rand) (length r2)
    ltac:(intros m caps k; unfold addSpace, bind, Math_random, ret;
          by destruct (lessThan (rand k) (8 # 100))) r2 n2 ltac:(lia)) as D3.
  simpl in *. lia.
Qed.

(** ** The answers of the route *)

Lemma respond_cases rand parsed extractedText n :
  (exists parsedData c t meds,
     parsed = Some parsedData /\ text parsedData = Str (c :: t) /\
     medications parsedData = Some meds /\
     respond rand parsed extractedText n = applyOCRErrors rand (c :: t) meds parsedData n) \/
  ((forall parsedData, parsed = Some parsedData ->
      truthy (text parsedData) = false \/ medications parsedData = None) /\
   respond rand parsed extractedText n = fallback rand extractedText n).
Proof.
  destruct parsed as [pd|]; [|right; split; [done | reflexivity]].
  unfold respond.
  destruct (text pd) as [| |[|c t]] eqn:Ht;
    try (right; split; [intros ? [= <-]; rewrite Ht; by left | reflexivity]).
  destruct (medications pd) as [meds|] eqn:Hm.
  - left. by exists pd, c, t, meds.
  - right. split; [intros ? [= <-]; by right | reflexivity].
Qed.

Lemma fallback_fields rand extractedText n :
  let out := (fallback rand extractedText n).1 in
  text out = Str (let (t1, n1) := introduceRealisticOCRErrors rand extractedText n in
                  (addOCRFormattingIssues rand t1 n1).1) /\
  medications out = Some [] /\ doctorName out = Str [] /\ prescriptionDate out = Str [].
Proof.
  unfold fallback, bind, ret.
  destruct (introduceRealisticOCRErrors rand extractedText n) as [t1 n1].
  by destruct (addOCRFormattingIssues rand t1 n1).
Qed.

(** X9. Whatever the model replied, the answer of the route has a string
    as text and an array as medications.  Either the parsed reply passed the
    validation, and the answer has as many medications as the reply, a text of
    at most four times the length of the reply's text, and the reply's date;
    or the answer is the fallback: no medication, an empty doctor name and
    date, and a text of at most four times the length of the raw reply. *)
Theorem X9_route_answer_shape
    (rand : nat -> Q) (parsed : option ParsedData) (extractedText : list N) (n : nat) :
  let out := (respond rand parsed extractedText n).1 in
  exists t l, text out = Str t /\ medications out = Some l /\
    ((exists parsedData s meds,
        parsed = Some parsedData /\ text parsedData = Str s /\ s <> [] /\
        medications parsedData = Some meds /\
        (length t <= 4 * length s)%nat /\ length l = length meds /\
        prescriptionDate out = prescriptionDate parsedData) \/
     ((forall parsedData, parsed = Some parsedData ->
         truthy (text parsedData) = false \/ medications parsedData = None) /\
      (length t <= 4 * length extractedText)%nat /\ l = [] /\
      doctorName out = Str [] /\ prescriptionDate out = Str [])).
Proof.
  destruct (respond_cases rand parsed extractedText n)
    as [(pd & c & s & meds & -> & Ht & Hm & ->) | [Hguard ->]].
  - destruct (applyOCRErrors_fields rand (fun _ _ => True) (c :: s) meds pd n
                ltac:(done)) as (Htext & (meds' & Hm' & Hall) & _ & Hdate).
    cbn zeta. eexists _, meds'. split; [exact Htext|]. split; [exact Hm'|].
    left. exists pd, (c :: s), meds. repeat split; try done.
    + apply both_passes_length.
    + symmetry. by eapply Forall2_length.
  - destruct (fallback_fields rand extractedText n) as (Htext & Hm & Hdoc & Hdate).
    cbn zeta. eexists _, []. split; [exact Htext|]. split; [exact Hm|].
    right. repeat split; try done. apply both_passes_length.
Qed.

(** X10. When the parsed reply does not pass the validation (its text is
    not a non-empty string, or its medications are not an array), the answer
    is the one given when nothing could be parsed: it depends on the raw reply
    only, and nothing of the parsed object reaches it. *)
Theorem X10_invalid_reply_is_ignored
    (rand : nat -> Q) (parsedData : ParsedData) (extractedText : list N) (n : nat) :
  truthy (text parsedData) = false \/ medications parsedData = None ->
  respond rand (Some parsedData) extractedText n = respond rand None extractedText n.
Proof.
  intros Hguard.
  destruct (respond_cases rand (Some parsedData) extractedText n)
    as [(pd & c & s & meds & [= <-] & Ht & Hm & _) | [_ ->]]; [|done].
  rewrite Ht, Hm in Hguard. by destruct Hguard.
Qed.

Lemma X10_invalid_reply_is_ignored_witness :
  respond firstLow (Some emptyTextParsed) emptyTextReply 0%nat =
  respond firstLow None emptyTextReply 0%nat.
Proof.
  apply (X10_invalid_reply_is_ignored firstLow emptyTextParsed emptyTextReply 0%nat).
  left. reflexivity.
Defined.

(** * The uploader *)

(** ** Trimmed names and medication rows *)

Lemma afterPrefix_head p s c s' : afterPrefix p s = c :: s' -> p c = false.
Proof.
  induction s as [|a s IH]; simpl; [done|].
  destruct (p a) eqn:E; [done|]. by intros [= <- _].
Qed.

Lemma afterPrefix_nil p s : afterPrefix p s = [] -> Forall (fun c => p c = true) s.
Proof.
  intros H. pose proof (prefixOf_afterPrefix p s) as Hs.
  rewrite H, app_nil_r in Hs. rewrite <- Hs. apply prefixOf_Forall.
Qed.

Lemma stripSpaces_nil_iff s : stripSpaces s = [] <-> Forall (fun c => isSpace c = true) s.
Proof.
  split; [|apply stripSpaces_run].
  induction s as [|c s IH]; simpl; [constructor|].
  destruct (isSpace c) eqn:E; [|done]. intros H. constructor; auto.
Qed.

Section TrimFacts.

Import Uploader.

(** A text is its trimmed text between two runs of whitespace. *)
Lemma trim_split s :
  exists pre post,
    s = pre ++ trim s ++ post /\
    Forall (fun c => isSpace c = true) pre /\ Forall (fun c => isSpace c = true) post.
Proof.
  unfold trim, trimStart.
  exists (prefixOf isSpace s), (rev (prefixOf isSpace (rev (afterPrefix isSpace s)))).
  split; [|split].
  - rewrite <- rev_app_distr, prefixOf_afterPrefix, rev_involutive.
    by rewrite prefixOf_afterPrefix.
  - apply prefixOf_Forall.
  - apply Forall_rev, prefixOf_Forall.
Qed.

Lemma trim_first s c s' : trim s = c :: s' -> isSpace c = false.
Proof.
  unfold trim, trimStart. intros H.
  pose proof (prefixOf_afterPrefix isSpace (rev (afterPrefix isSpace s))) as Hs.
  apply (f_equal (@rev N)) in Hs. rewrite rev_app_distr, rev_involutive, H in Hs.
  simpl in Hs. by apply (afterPrefix_head isSpace s c _ (eq_sym Hs)).
Qed.

Lemma trim_last s s' c : trim s = s' ++ [c] -> isSpace c = false.
Proof.
  unfold trim, trimStart. intros H.
  apply (f_equal (@rev N)) in H. rewrite rev_involutive, rev_app_distr in H.
  simpl in H. by apply afterPrefix_head in H.
Qed.

Lemma trim_strip s : stripSpaces (trim s) = stripSpaces s.
Proof.
  destruct (trim_split s) as (pre & post & Hs & Hpre & Hpost).
  rewrite Hs at 2. rewrite !stripSpaces_app.
  by rewrite (stripSpaces_run pre), (stripSpaces_run post), app_nil_r.
Qed.

(** The trimmed text is empty exactly when the text is whitespace only. *)
Lemma trim_nil_iff s : trim s = [] <-> stripSpaces s = [].
Proof.
  rewrite <- trim_strip. split; [by intros ->|].
  destruct (trim s) as [|c t] eqn:E; [done|].
  simpl. by rewrite (trim_first _ _ _ E).
Qed.

Lemma hasName_iff med :
  hasName med = true <-> exists s, name med = Str s /\ stripSpaces s <> [].
Proof.
  unfold hasName. destruct (name med) as [| |s]; try (split; [done | by intros (? & ? & ?)]).
  split.
  - rewrite andb_true_iff. intros [_ H]. exists s. split; [done|].
    rewrite <- trim_nil_iff. by destruct (trim s).
  - intros (s' & [= <-] & H). rewrite <- trim_nil_iff in H.
    destruct (trim s) as [|c t] eqn:E; [done|].
    destruct (trim_split s) as (pre & post & Hs & _). rewrite E in Hs.
    by destruct s; [destruct pre|].
Qed.

Lemma orNull_cases v : orNull v = Null \/ exists c s, orNull v = Str (c :: s) /\ v = Str (c :: s).
Proof. destruct v as [| |[|c s]]; simpl; eauto. Qed.

End TrimFacts.

(** X11. Every medication row the uploader builds carries the id of the
    saved prescription and a name that is not empty and neither starts nor ends
    with whitespace; its other fields are null or non-empty strings, never an
    empty string.  There are no more rows than medications. *)
Theorem X11_medication_rows_are_clean (prescriptionId : list N) (meds : list Medication) :
  let rows := Uploader.medicationsToInsert prescriptionId meds in
  (length rows <= length meds)%nat /\
  Forall (fun row =>
    Uploader.prescription_id row = prescriptionId /\
    Uploader.row_name row <> [] /\
    (forall c s, Uploader.row_name row = c :: s -> isSpace c = false) /\
    (forall s c, Uploader.row_name row = s ++ [c] -> isSpace c = false) /\
    Forall (fun v => v = Null \/ exists c s, v = Str (c :: s))
      [Uploader.row_dosage row; Uploader.row_frequency row;
       Uploader.row_duration row; Uploader.row_instructions row]) rows.
Proof.
  unfold Uploader.medicationsToInsert. cbn zeta. split.
  - rewrite length_map. apply List.filter_length_le.
  - apply Forall_map, Forall_forall. intros med Hmed.
    apply list_elem_of_In, List.filter_In in Hmed as [_ Hmed].
    apply hasName_iff in Hmed as (s & Hs & Hne). cbn.
    unfold Uploader.trimmedName. rewrite Hs.
    split; [done|]. split; [by rewrite trim_nil_iff|].
    split; [apply trim_first|]. split; [apply trim_last|].
    repeat (apply List.Forall_cons;
      [match goal with |- Uploader.orNull ?v = _ \/ _ =>
         destruct (orNull_cases v) as [->|(c & t & -> & _)]; eauto end|]).
    apply List.Forall_nil.
Qed.

(** X12. A medication gets a row exactly when its name is a string with
    at least one unit that is not whitespace; the rows come in the order of
    these medications, each with the trimmed name. *)
Theorem X12_medications_without_name_are_skipped
    (prescriptionId : list N) (meds : list Medication) :
  map Uploader.row_name (Uploader.medicationsToInsert prescriptionId meds) =
  map Uploader.trimmedName (List.filter nameNotBlank meds).
Proof.
  unfold Uploader.medicationsToInsert. rewrite map_map. cbn.
  f_equal. apply List.filter_ext. intros med.
  destruct (Uploader.hasName med) eqn:E.
  - apply hasName_iff in E as (s & Hs & Hne). unfold nameNotBlank.
    by rewrite Hs, bool_decide_eq_false_2.
  - unfold nameNotBlank. destruct (name med) as [| |s] eqn:Hs; try done.
    case_bool_decide as Hd; [done|].
    assert (Uploader.hasName med = true) by (apply hasName_iff; eauto). congruence.
Qed.

(** ** What [handleSave] sends *)

(** X13. [handleSave] sends nothing when there is no extracted data, no
    user, or a title of whitespace only; otherwise the prescription row has
    the user's id, the status "active" and the trimmed title, which is not
    empty and neither starts nor ends with whitespace. *)
Theorem X13_save_needs_a_title
    (user : option (list N)) (title : list N) (fileName imageUrl : value)
    (extractedData : option ParsedData) (prescriptionId : list N) :
  match Uploader.handleSave user title fileName imageUrl extractedData prescriptionId with
  | None => user = None \/ extractedData = None \/ stripSpaces title = []
  | Some (row, rows) =>
      user = Some (Uploader.user_id row) /\ is_Some extractedData /\
      Uploader.status row = lit "active" /\
      Uploader.title row = Uploader.trim title /\ stripSpaces title <> [] /\
      (forall c s, Uploader.title row = c :: s -> isSpace c = false) /\
      (forall s c, Uploader.title row = s ++ [c] -> isSpace c = false)
  end.
Proof.
  unfold Uploader.handleSave.
  destruct extractedData as [data|]; [|by right; left].
  destruct user as [uid|]; [|by left].
  destruct (truthy (Str (Uploader.trim title))) eqn:E.
  - cbn [Uploader.prescriptionData Uploader.user_id Uploader.status Uploader.title].
    split; [done|]. split; [by eexists|]. split; [done|]. split; [done|].
    split; [|split].
    + rewrite <- trim_nil_iff. by destruct (Uploader.trim title).
    + apply trim_first.
    + apply trim_last.
  - right. right. apply trim_nil_iff. by destruct (Uploader.trim title).
Qed.

(** X14. Saving the fallback answer of the route stores the noisy text
    and nothing else: the doctor name and the date are null, the medication
    list is empty and no medication row is sent. *)
Theorem X14_saving_a_fallback_answer
    (rand : nat -> Q) (parsed : option ParsedData) (extractedText : list N) (n : nat)
    (userId title : list N) (fileName imageUrl : value) (prescriptionId : list N)
    (row : Uploader.PrescriptionRow) (rows : list Uploader.MedicationRow) :
  (forall parsedData, parsed = Some parsedData ->
     truthy (text parsedData) = false \/ medications parsedData = None) ->
  Uploader.handleSave (Some userId) title fileName imageUrl
    (Some (respond rand parsed extractedText n).1) prescriptionId = Some (row, rows) ->
  Uploader.extracted_text row = text (fallback rand extractedText n).1 /\
  Uploader.doctor_name row = Null /\ Uploader.prescription_date row = Null /\
  Uploader.row_medications row = [] /\ rows = [].
Proof.
  intros Hguard.
  destruct (respond_cases rand parsed extractedText n)
    as [(pd & c & s & meds & -> & Ht & Hm & _) | [_ ->]].
  { destruct (Hguard pd eq_refl) as [H|H]; [by rewrite Ht in H | congruence]. }
  destruct (fallback_fields rand extractedText n) as (_ & Hm & Hdoc & Hdate).
  unfold Uploader.handleSave, Uploader.prescriptionData.
  destruct (truthy (Str (Uploader.trim title))); [|done].
  rewrite Hm, Hdoc, Hdate. by intros [= <- <-].
Qed.

Lemma X14_saving_a_fallback_answer_witness :
  let row := Uploader.prescriptionData (lit "u1") (lit " scan ") Undefined Null
               (respond high None (lit "no json here") 0%nat).1 in
  Uploader.doctor_name row = Null /\ Uploader.prescription_date row = Null /\
  Uploader.row_medications row = [].
Proof.
  destruct (X14_saving_a_fallback_answer high None (lit "no json here") 0%nat
              (lit "u1") (lit " scan ") Undefined Null (lit "p1")
              (Uploader.prescriptionData (lit "u1") (lit " scan ") Undefined Null
                 (respond high None (lit "no json here") 0%nat).1) [])
    as (_ & Hdoc & Hdate & Hmeds & _).
  - intros pd [=].
  - reflexivity.
  - split; [exact Hdoc|]. split; [exact Hdate | exact Hmeds].
Defined.

(** X15. Saving a validated answer stores the model's prescription date
    as it was, or null when there was none or an empty one, and as many
    medications as the model listed. *)
Theorem X15_saved_date_is_the_model_date
    (rand : nat -> Q) (parsedData : ParsedData) (extractedText : list N) (n : nat)
    (c : N) (t : list N) (meds : list Medication)
    (userId title : list N) (fileName imageUrl : value) (prescriptionId : list N)
    (row : Uploader.PrescriptionRow) (rows : list Uploader.MedicationRow) :
  text parsedData = Str (c :: t) ->
  medications parsedData = Some meds ->
  Uploader.handleSave (Some userId) title fileName imageUrl
    (Some (respond rand (Some parsedData) extractedText n).1) prescriptionId
    = Some (row, rows) ->
  Uploader.prescription_date row = Uploader.orNull (prescriptionDate parsedData) /\
  length (Uploader.row_medications row) = length meds.
Proof.
  intros Ht Hm. unfold respond. rewrite Ht, Hm.
  destruct (applyOCRErrors_fields rand (fun _ _ => True) (c :: t) meds parsedData n
              ltac:(done)) as (_ & (meds' & Hm' & Hall) & _ & Hdate).
  unfold Uploader.handleSave, Uploader.prescriptionData.
  destruct (truthy (Str (Uploader.trim title))); [|done].
  intros [= <- _]. cbn. rewrite Hm', Hdate. split; [done|].
  symmetry. by eapply Forall2_length.
Qed.

Lemma X15_saved_date_is_the_model_date_witness :
  Uploader.prescription_date
    (Uploader.prescriptionData (lit "u1") (lit "scan") Undefined Null
       (respond low (Some tabletParsed) (lit "reply") 0%nat).1)
  = Uploader.orNull (prescriptionDate tabletParsed).
Proof.
  destruct (X15_saved_date_is_the_model_date low tabletParsed (lit "reply") 0%nat
              84 (lit "ake 1 tablet twice daily") [aspirin]
              (lit "u1") (lit "scan") Undefined Null (lit "p1")
              (Uploader.prescriptionData (lit "u1") (lit "scan") Undefined Null
                 (respond low (Some tabletParsed) (lit "reply") 0%nat).1)
              (Uploader.medicationsToInsert (lit "p1")
                 (match medications (respond low (Some tabletParsed) (lit "reply") 0%nat).1 with
                  | Some l => l | None => [] end)))
    as [Hdate _]; [reflexivity | reflexivity | | exact Hdate].
  vm_compute. reflexivity.
Defined.

(** ** File names *)

Lemma exec_Class p c s : exec (Class p) (c :: s) = if p c then Some ([c], []) else None.
Proof.
  unfold exec. simpl run. destruct (p c); [|done].
  by replace (S (length s) - length s)%nat with 1%nat by lia.
Qed.

(** Replacing every unit of a class by a fixed string, unit by unit. *)
Lemma replace_Class p rep s n :
  replace (Class p) (fun _ _ => ret rep) s n =
  (flat_map (fun c => if p c then rep else [c]) s, n).
Proof.
  induction s as [|c s IH]; rewrite replace_step; [done|].
  rewrite exec_Class. destruct (p c) eqn:E.
  - unfold ret at 1. cbn [length drop]. rewrite drop_0, IH. simpl.
    by rewrite E.
  - rewrite IH. simpl. by rewrite E.
Qed.

Lemma safeName_map fileName :
  Uploader.safeName fileName =
  map (fun c => if Uploader.unsafeChar c then 95 else c) fileName.
Proof.
  unfold Uploader.safeName. rewrite replace_Class. simpl.
  induction fileName as [|c s IH]; simpl; [done|].
  rewrite IH. by destruct (Uploader.unsafeChar c).
Qed.

Lemma decimal_digits n : Forall (fun c => 48 <= c <= 57) (Uploader.decimal n).
Proof.
  unfold Uploader.decimal. generalize (N.to_uint n). intros d.
  induction d; simpl; constructor; try done; simpl; lia.
Qed.

(** X16. The sanitised file name has the length of the file name, is made
    of ASCII letters, digits, dots, hyphens and underscores only (so it holds
    no slash and no whitespace), is the file name itself when that is already
    so made, and sanitising twice changes nothing more. *)
Theorem X16_safe_file_name (fileName : list N) :
  length (Uploader.safeName fileName) = length fileName /\
  Forall (fun c => Uploader.unsafeChar c = false \/ c = 95) (Uploader.safeName fileName) /\
  (47 ∉ Uploader.safeName fileName) /\
  Forall (fun c => isSpace c = false) (Uploader.safeName fileName) /\
  (Forall (fun c => Uploader.unsafeChar c = false) fileName ->
   Uploader.safeName fileName = fileName) /\
  Uploader.safeName (Uploader.safeName fileName) = Uploader.safeName fileName.
Proof.
  assert (Hall : Forall (fun c => Uploader.unsafeChar c = false \/ c = 95)
                   (Uploader.safeName fileName)).
  { rewrite safeName_map. apply Forall_map, Forall_forall. intros c _. simpl.
    destruct (Uploader.unsafeChar c) eqn:E; auto. }
  assert (Hsafe : forall c, Uploader.unsafeChar c = false \/ c = 95 ->
                            c <> 47 /\ isSpace c = false).
  { intros c Hc. assert (Hr : 45 <= c <= 122 /\ c <> 47).
    { destruct Hc as [Hc| ->]; [|lia]. unfold Uploader.unsafeChar in Hc.
      apply negb_false_iff in Hc.
      rewrite !orb_true_iff, !andb_true_iff, !N.leb_le, !N.eqb_eq in Hc. lia. }
    split; [lia|]. destruct (isSpace c) eqn:E; [|done].
    apply isSpace_range in E. lia. }
  split; [by rewrite safeName_map, length_map|]. split; [exact Hall|].
  split; [|split; [|split]].
  - intros Hin. rewrite Forall_forall in Hall. by destruct (Hsafe _ (Hall _ Hin)).
  - eapply Forall_impl; [exact Hall|]. intros c Hc. by destruct (Hsafe c Hc).
  - intros Hs. rewrite safeName_map. clear Hall.
    induction Hs as [|c s Hc _ IH]; [done|]. cbn [map]. by rewrite Hc, IH.
  - rewrite !safeName_map, map_map. apply map_ext. intros c.
    destruct (Uploader.unsafeChar c) eqn:E; [reflexivity | by rewrite E].
Qed.

Lemma X16_safe_file_name_witness :
  Uploader.safeName (lit "scan-01.png") = lit "scan-01.png".
Proof.
  destruct (X16_safe_file_name (lit "scan-01.png")) as (_ & _ & _ & _ & H & _).
  apply H. apply Forall_forall. intros c Hc.
  change (lit "scan-01.png") with [115; 99; 97; 110; 45; 48; 49; 46; 112; 110; 103] in Hc.
  rewrite !elem_of_cons, elem_of_nil in Hc.
  repeat (destruct Hc as [->|Hc]; [reflexivity|]). done.
Defined.

(** X17. When the user id holds no slash, the storage key is the user id,
    one slash, and a rest without slash: whatever the file is called, the
    object lands directly in the folder of the user. *)
Theorem X17_storage_key_stays_in_user_folder (userId : list N) (now : N) (fileName : list N) :
  47 ∉ userId ->
  exists rest,
    Uploader.storageKey userId now fileName = userId ++ [47] ++ rest /\ (47 ∉ rest) /\
    prefixOf (fun c => negb (c =? 47)) (Uploader.storageKey userId now fileName) = userId.
Proof.
  intros Hu. exists (Uploader.decimal now ++ lit "-" ++ Uploader.safeName fileName).
  split; [done|]. split.
  - rewrite !elem_of_app. intros [H|[H|H]].
    + pose proof (decimal_digits now) as Hd. rewrite Forall_forall in Hd.
      specialize (Hd _ H). lia.
    + apply list_elem_of_singleton in H. discriminate.
    + rewrite safeName_map in H. apply list_elem_of_fmap in H as (c & Hc & _).
      destruct (Uploader.unsafeChar c) eqn:E; [done|]. subst c. done.
  - unfold Uploader.storageKey. rewrite prefixOf_app.
    + change (lit "/" ++ ?r) with (47 :: r). simpl. by rewrite app_nil_r.
    + apply Forall_forall. intros c Hc. apply negb_true_iff, N.eqb_neq.
      by intros ->.
Qed.

Lemma X17_storage_key_stays_in_user_folder_witness :
  exists rest,
    Uploader.storageKey (lit "user-1") 1700000000000 (lit "../a b.png")
      = lit "user-1" ++ [47] ++ rest /\ (47 ∉ rest) /\
    prefixOf (fun c => negb (c =? 47))
      (Uploader.storageKey (lit "user-1") 1700000000000 (lit "../a b.png")) = lit "user-1".
Proof.
  apply (X17_storage_key_stays_in_user_folder (lit "user-1") 1700000000000 (lit "../a b.png")).
  change (lit "user-1") with [117; 115; 101; 114; 45; 49].
  rewrite !elem_of_cons, elem_of_nil. intros H.
  repeat (destruct H as [H|H]; [discriminate|]). done.
Defined.

(** ** The default title and the payload of a data URL *)

Section DefaultTitleFacts.

Import Uploader.

(** A match of the pattern that runs to the end: a dot and then at least
    one unit, none of them a slash or a dot. *)
Lemma execToEnd_extension s :
  execToEnd extension s =
  match s with
  | 46 :: d :: t =>
      if notSlashOrDot d && bool_decide (afterPrefix notSlashOrDot t = [])
      then Some (s, []) else None
  | _ => None
  end.
Proof.
  unfold execToEnd, extension. rewrite run_Seq.
  destruct s as [|c s]; [done|]. cbn [run].
  destruct (N.eqb_spec 46 c) as [<-|Hc].
  - destruct s as [|d t]; [done|].
    destruct (notSlashOrDot d); [|done]. cbn [andb].
    rewrite star_committed by done.
    case_bool_decide as Ht; [by rewrite Ht|]. by destruct (afterPrefix notSlashOrDot t).
  - destruct c as [|p]; [done|]. do 6 (destruct p as [p|p|]; try done).
Qed.

Lemma execToEnd_no_dot_inside s :
  46 ∈ s -> execToEnd extension (46 :: s) = None.
Proof.
  intros Hin. rewrite execToEnd_extension. destruct s as [|d t]; [done|].
  destruct (notSlashOrDot d) eqn:Hd; [|done]. cbn [andb].
  case_bool_decide as Ht; [|done]. exfalso.
  apply afterPrefix_nil in Ht. rewrite Forall_forall in Ht.
  apply elem_of_cons in Hin as [<-|Hin]; [done|]. by specialize (Ht _ Hin).
Qed.

Lemma defaultTitle_extension base ext :
  ext <> [] -> Forall (fun c => c <> 46 /\ c <> 47) ext ->
  defaultTitle (base ++ 46 :: ext) = base.
Proof.
  intros Hne Hext. unfold defaultTitle.
  assert (Hall : Forall (fun c => notSlashOrDot c = true) ext).
  { eapply Forall_impl; [exact Hext|]. intros c [H1 H2]. unfold notSlashOrDot.
    apply negb_true_iff, orb_false_iff. by rewrite !N.eqb_neq. }
  induction base as [|b base IH].
  - cbn [app replaceToEnd]. rewrite execToEnd_extension.
    destruct ext as [|d t]; [done|]. inversion Hall as [|? ? Hd Ht]; subst.
    rewrite Hd. cbn [andb]. rewrite bool_decide_eq_true_2; [done|].
    rewrite <- (app_nil_r t), afterPrefix_app; done.
  - cbn [app replaceToEnd]. rewrite IH.
    destruct (N.eq_dec b 46) as [->|Hb].
    + rewrite execToEnd_no_dot_inside; [done|].
      rewrite elem_of_app. right. apply list_elem_of_here.
    + rewrite execToEnd_extension. destruct b as [|p]; [done|].
      do 6 (destruct p as [p|p|]; try done).
Qed.

Lemma defaultTitle_no_dot s : 46 ∉ s -> defaultTitle s = s.
Proof.
  unfold defaultTitle. induction s as [|c s IH]; intros Hs.
  - done.
  - cbn [replaceToEnd]. rewrite execToEnd_extension.
    rewrite not_elem_of_cons in Hs. destruct Hs as [Hc Hs]. rewrite (IH Hs).
    destruct c as [|p]; [done|]. do 6 (destruct p as [p|p|]; try done).
Qed.

Lemma split_no_sep sep s : sep ∉ s -> split sep s = [s].
Proof.
  induction s as [|c s IH]; [done|]. rewrite not_elem_of_cons. intros [Hc Hs].
  simpl. rewrite (proj2 (N.eqb_neq c sep)) by done. by rewrite (IH Hs).
Qed.

Lemma split_at_sep sep pre rest :
  sep ∉ pre -> split sep (pre ++ sep :: rest) = pre :: split sep rest.
Proof.
  induction pre as [|c pre IH]; simpl.
  - intros _. by rewrite N.eqb_refl.
  - rewrite not_elem_of_cons. intros [Hc Hpre].
    rewrite (proj2 (N.eqb_neq c sep)) by done. by rewrite (IH Hpre).
Qed.

End DefaultTitleFacts.

(** X18. The default title is the file name without its last extension:
    a name that ends with a dot and a non-empty run without dot or slash
    loses exactly that ending, and a name without dot is kept whole. *)
Theorem X18_default_title_drops_the_extension (base ext : list N) :
  (ext <> [] -> Forall (fun c => c <> 46 /\ c <> 47) ext ->
   Uploader.defaultTitle (base ++ [46] ++ ext) = base) /\
  (46 ∉ base -> Uploader.defaultTitle base = base).
Proof.
  split.
  - apply (defaultTitle_extension base ext).
  - apply defaultTitle_no_dot.
Qed.

Lemma X18_default_title_drops_the_extension_witness :
  Uploader.defaultTitle (lit "rx.2024" ++ [46] ++ lit "jpeg") = lit "rx.2024" /\
  Uploader.defaultTitle (lit "scan") = lit "scan".
Proof.
  destruct (X18_default_title_drops_the_extension (lit "rx.2024") (lit "jpeg")) as [H1 _].
  destruct (X18_default_title_drops_the_extension (lit "scan") []) as [_ H2].
  split.
  - apply H1; [discriminate|]. repeat constructor; discriminate.
  - apply H2. change (lit "scan") with [115; 99; 97; 110].
    rewrite !elem_of_cons, elem_of_nil. intros H.
    repeat (destruct H as [H|H]; [discriminate|]). done.
Defined.

(** X19. From a data URL made of a header without comma, a comma and a
    payload without comma, [convertToBase64] keeps exactly the payload; from a
    text without comma it gets [undefined]. *)
Theorem X19_payload_of_a_data_url (header payload : list N) :
  44 ∉ header ->
  (44 ∉ payload -> Uploader.payloadOf (header ++ [44] ++ payload) = Str payload) /\
  Uploader.payloadOf header = Undefined.
Proof.
  intros Hh. split.
  - intros Hp. unfold Uploader.payloadOf. cbn [app].
    rewrite split_at_sep by done. by rewrite split_no_sep.
  - unfold Uploader.payloadOf. by rewrite split_no_sep.
Qed.

Lemma X19_payload_of_a_data_url_witness :
  Uploader.payloadOf (lit "data:image/png;base64" ++ [44] ++ lit "iVBORw0KGgo=")
    = Str (lit "iVBORw0KGgo=") /\
  Uploader.payloadOf (lit "data:image/png;base64") = Undefined.
Proof.
  destruct (X19_payload_of_a_data_url (lit "data:image/png;base64") (lit "iVBORw0KGgo="))
    as [H1 H2].
  - apply (bool_decide_unpack _). vm_compute. exact I.
  - split; [apply H1 | exact H2].
    apply (bool_decide_unpack _). vm_compute. exact I.
Defined.

(** * The records page *)

Lemma filter_sublist {A} (f : A -> bool) (l : list A) : sublist (List.filter f l) l.
Proof.
  induction l as [|a l IH]; simpl; [constructor|].
  destruct (f a); by constructor.
Qed.

(** X20. The filtered list keeps the prescriptions in their order and adds
    none; a prescription is listed exactly when it passes the search (or the
    search term is empty) and has the selected status (or the selection is
    "all"). *)
Theorem X20_filtered_prescriptions
    (toLowerCase : list N -> list N) (prescriptions : list Records.Prescription)
    (searchTerm statusFilter : list N) :
  let filtered := Records.filterPrescriptions toLowerCase prescriptions searchTerm statusFilter in
  sublist filtered prescriptions /\
  forall p, p ∈ filtered <->
    p ∈ prescriptions /\
    (searchTerm = [] \/ Records.matchesSearch toLowerCase searchTerm p = true) /\
    (statusFilter = lit "all" \/ Records.status p = statusFilter).
Proof.
  unfold Records.filterPrescriptions, Records.sameString. cbn zeta. split.
  - destruct (truthy (Str searchTerm)); case_bool_decide; cbn [negb];
      repeat (etrans; [apply filter_sublist|]); done.
  - intros p. rewrite !list_elem_of_In.
    destruct searchTerm as [|c t]; cbn [truthy];
      case_bool_decide as Hs; cbn [negb]; rewrite ?List.filter_In, ?bool_decide_eq_true;
      intuition (try discriminate; try congruence).
Qed.

Section SearchFacts.

Variable toLowerCase : list N -> list N.
Hypothesis lower_twice : forall s, toLowerCase (toLowerCase s) = toLowerCase s.
Hypothesis lower_empty : forall s, toLowerCase s = [] <-> s = [].

Lemma matchesSearch_lower searchTerm p :
  Records.matchesSearch toLowerCase (toLowerCase searchTerm) p =
  Records.matchesSearch toLowerCase searchTerm p.
Proof. unfold Records.matchesSearch. by rewrite lower_twice. Qed.

Lemma filterPrescriptions_lower prescriptions searchTerm statusFilter :
  Records.filterPrescriptions toLowerCase prescriptions (toLowerCase searchTerm) statusFilter =
  Records.filterPrescriptions toLowerCase prescriptions searchTerm statusFilter.
Proof.
  unfold Records.filterPrescriptions.
  assert (Ht : truthy (Str (toLowerCase searchTerm)) = truthy (Str searchTerm)).
  { pose proof (lower_empty searchTerm) as H.
    destruct searchTerm as [|c t], (toLowerCase _) as [|c' t']; try done.
    - by destruct (proj2 H eq_refl).
    - by destruct (proj1 H eq_refl). }
  rewrite Ht. destruct (truthy (Str searchTerm)); [|done].
  cbn zeta.
  rewrite (List.filter_ext _ _ (matchesSearch_lower searchTerm) prescriptions).
  done.
Qed.

End SearchFacts.

Lemma asciiLower_twice s : asciiLower (asciiLower s) = asciiLower s.
Proof.
  unfold asciiLower. rewrite map_map. apply map_ext. intros c.
  destruct ((65 <=? c) && (c <=? 90)) eqn:E; [|by rewrite E].
  apply andb_true_iff in E as [H1 H2]. apply N.leb_le in H1, H2.
  replace ((65 <=? c + 32) && (c + 32 <=? 90)) with false; [done|].
  symmetry. apply andb_false_iff. right. apply N.leb_gt. lia.
Qed.

Lemma asciiLower_empty s : asciiLower s = [] <-> s = [].
Proof. unfold asciiLower. by destruct s. Qed.

(** X21. The search does not depend on the case of the search term: for
    a lower-casing that changes nothing on a lower-cased string and gives the
    empty string on the empty string only, searching a term or its lower-cased
    form lists the same prescriptions. *)
Theorem X21_search_ignores_the_case_of_the_term
    (toLowerCase : list N -> list N) (prescriptions : list Records.Prescription)
    (searchTerm statusFilter : list N) :
  (forall s, toLowerCase (toLowerCase s) = toLowerCase s) ->
  (forall s, toLowerCase s = [] <-> s = []) ->
  Records.filterPrescriptions toLowerCase prescriptions (toLowerCase searchTerm) statusFilter =
  Records.filterPrescriptions toLowerCase prescriptions searchTerm statusFilter.
Proof. intros H1 H2. by apply filterPrescriptions_lower. Qed.

Lemma X21_search_ignores_the_case_of_the_term_witness :
  Records.filterPrescriptions asciiLower
    [ {| Records.id := lit "1"; Records.title := lit "Aspirin refill";
         Records.extracted_text := lit "Take 1 tablet"; Records.doctor_name := Null;
         Records.status := lit "active" |} ]
    (asciiLower (lit "ASPIRIN")) (lit "all") =
  Records.filterPrescriptions asciiLower
    [ {| Records.id := lit "1"; Records.title := lit "Aspirin refill";
         Records.extracted_text := lit "Take 1 tablet"; Records.doctor_name := Null;
         Records.status := lit "active" |} ]
    (lit "ASPIRIN") (lit "all").
Proof.
  apply (X21_search_ignores_the_case_of_the_term asciiLower).
  - apply asciiLower_twice.
  - apply asciiLower_empty.
Defined.
